(** * community_address: the Google Open Buildings importer and the region generator

    A shallow embedding of [database/import-google-buildings.py] and
    [database/generate-regions.py], and the properties of the ingestion
    pipeline and of the polygon generator proved over it.

    Python values are modelled as the code has them: [int] as [Z], [str] as
    [string], [dict] as a finite map, [list] as [list].  A [float] of the
    importer is a binary64 number ([PrimFloat.float]); the generator is
    written over the float operations it calls, which are then read on the
    reals.  A Python call either returns or raises; that is the type [Exc].
    The effects of the script (the scratch directory, HTTP requests, the
    database connection and its transaction) are threaded explicitly. *)

From Stdlib Require Import ZArith Ascii String List Lia Floats.PrimFloat Reals Lra.
From Stdlib Require Import Floats.SpecFloat Floats.FloatOps Floats.FloatAxioms.
From stdpp Require Import gmap strings list fin_maps.

#[local] Open Scope string_scope.
#[local] Open Scope list_scope.
#[local] Open Scope Z_scope.

(** ** Exceptions *)

(** The exception classes that occur in the two scripts.  [GzipError] stands
    for what reading a damaged gzip stream raises ([gzip.BadGzipFile],
    [EOFError], [zlib.error]): none of them is a [ValueError] or a [KeyError]. *)
Inductive exn : Type :=
  | KeyError
  | ValueError
  | TypeError
  | RuntimeError
  | IndexError
  | ZeroDivisionError
  | GzipError.

Inductive Exc (A : Type) : Type :=
  | Return (a : A)
  | Raise (e : exn).
Arguments Return {A} a.
Arguments Raise {A} e.

Definition bindE {A B : Type} (m : Exc A) (k : A -> Exc B) : Exc B :=
  match m with
  | Return a => k a
  | Raise e => Raise e
  end.

Declare Scope exc_scope.
Delimit Scope exc_scope with exc.
Notation "'let*' x ':=' m 'in' k" := (bindE m (fun x => k))
  (at level 10, x name, m at level 100, k at level 200) : exc_scope.

Module Importer.

(** ** Country configuration and bounds *)

(** [bounds] of a country in [countries.json]: four numbers under the keys
    [min_lat], [max_lat], [min_lon], [max_lon]. *)
Record Bounds : Type := mkBounds {
  min_lat : float;
  max_lat : float;
  min_lon : float;
  max_lon : float
}.

(** Python's chained comparison [a <= x <= b] is [a <= x and x <= b]; on
    floats [<=] is the IEEE comparison, false as soon as one side is NaN. *)
Definition is_in_bounds (lat lon : float) (bounds : Bounds) : bool :=
  (PrimFloat.leb (min_lat bounds) lat && PrimFloat.leb lat (max_lat bounds)) &&
  (PrimFloat.leb (min_lon bounds) lon && PrimFloat.leb lon (max_lon bounds)).

(** A box of zero area: the two bounds of one axis coincide. *)
Definition degenerate (bounds : Bounds) : bool :=
  PrimFloat.eqb (min_lat bounds) (max_lat bounds) ||
  PrimFloat.eqb (min_lon bounds) (max_lon bounds).

(** An entry of [countries.json], and the configuration [get_country_config]
    returns: a copy of the entry with the key [s2_cells] added. *)
Record CountryEntry : Type := mkCountryEntry {
  entry_name : string;
  entry_bounds : Bounds
}.

Record CountryConfig : Type := mkCountryConfig {
  name : string;
  bounds : Bounds;
  s2_cells : list string
}.

(** [str.upper] on the ASCII letters, which is what country codes are made of. *)
Definition upper_ascii (c : ascii) : ascii :=
  let n := nat_of_ascii c in
  if ((97 <=? n) && (n <=? 122))%nat then ascii_of_nat (n - 32) else c.

Fixpoint upper (s : string) : string :=
  match s with
  | EmptyString => EmptyString
  | String c rest => String (upper_ascii c) (upper rest)
  end.

(** ** SpatialCellSelector: [compute_s2_cells_for_bounds], [get_country_config] *)

Section Selector.

(** The part of [s2sphere] the script calls.  [get_covering lo hi min_level
    max_level max_cells] is [RegionCoverer.get_covering] on the rectangle
    [LatLngRect.from_point_pair(lo, hi)]; like any call it returns or raises. *)
Variable CellId : Type.
Variable get_covering : float * float -> float * float -> Z -> Z -> Z -> Exc (list CellId).
Variable to_token : CellId -> string.

(** [HAS_S2SPHERE] is the first argument. *)
Definition compute_s2_cells_for_bounds (has_s2sphere : bool) (bounds : Bounds)
    (level : Z) : Exc (list string) :=
  if negb has_s2sphere then Return []
  else
    let lo := (min_lat bounds, min_lon bounds) in
    let hi := (max_lat bounds, max_lon bounds) in
    (let* cells := get_covering lo hi level level 500 in
     Return (map to_token cells))%exc.

Definition get_country_config (has_s2sphere : bool)
    (country_configs : gmap string CountryEntry) (country_code : string)
    : Exc CountryConfig :=
  let code := upper country_code in
  match country_configs !! code with
  | None => Raise ValueError
  | Some config =>
      if negb has_s2sphere then Raise RuntimeError
      else
        (let* cells := compute_s2_cells_for_bounds has_s2sphere (entry_bounds config) 4 in
         Return (mkCountryConfig (entry_name config) (entry_bounds config) cells))%exc
  end.

(** C6, as the code has it.  The selector makes no test on the shape of the
    box: with the library present its outcome is the library's outcome on the
    rectangle, tokens taken, for a degenerate box as for any other; with the
    library absent it returns the empty list. *)
Theorem selector_has_no_degeneracy_check (has_s2sphere : bool) (bounds : Bounds)
    (level : Z) :
  compute_s2_cells_for_bounds has_s2sphere bounds level =
    if has_s2sphere then
      match get_covering (min_lat bounds, min_lon bounds)
                         (max_lat bounds, max_lon bounds) level level 500 with
      | Return cells => Return (map to_token cells)
      | Raise e => Raise e
      end
    else Return [].
Proof. destruct has_s2sphere; reflexivity. Qed.

(** C7, as the code has it.  Without the library the selector itself returns
    the empty list; the guard is in [get_country_config], which never returns
    then: it raises [ValueError] for an unknown code and [RuntimeError] for a
    configured one, before the selector is called. *)
Theorem missing_library_stops_config (country_configs : gmap string CountryEntry)
    (country_code : string) (bounds : Bounds) (level : Z) :
  compute_s2_cells_for_bounds false bounds level = Return [] /\
  get_country_config false country_configs country_code =
    match country_configs !! upper country_code with
    | Some _ => Raise RuntimeError
    | None => Raise ValueError
    end.
Proof.
  split; [reflexivity|]. unfold get_country_config.
  destruct (country_configs !! upper country_code); reflexivity.
Qed.

End Selector.

(** ** ShardFetcher: [download_file] *)

(** A path of the scratch directory and the bytes of the file stored there. *)
Abbreviation Path := string (only parsing).
Abbreviation FileSystem := (gmap string (list Byte.byte)) (only parsing).

Section Download.

(** The body of a streamed response, as [response.iter_content] hands it
    out: chunk after chunk, until the body ends or the connection breaks. *)
Inductive Body : Type :=
  | BodyEnd
  | BodyBroken
  | BodyChunk (chunk : list Byte.byte) (rest : Body).

(** What [requests.get(url, stream=True, timeout=300)] does: it raises
    (time-out, refused connection) or it returns a response. *)
Inductive Response : Type :=
  | GetRaises
  | GetReturns (status_code : Z) (body : Body).

(** The scratch directory together with the log of the URLs requested. *)
Record World : Type := mkWorld {
  files : FileSystem;
  requests : list string
}.

(** [dest.exists() and dest.stat().st_size > 0] *)
Definition exists_nonempty (fs : FileSystem) (dest : Path) : bool :=
  match fs !! dest with
  | Some content => 0 <? Z.of_nat (length content)
  | None => false
  end.

(** [for chunk in response.iter_content(...): f.write(chunk)] on the file
    opened at [dest]; [false] when the iteration raised. *)
Fixpoint write_chunks (body : Body) (dest : Path) (fs : FileSystem) : bool * FileSystem :=
  match body with
  | BodyEnd => (true, fs)
  | BodyBroken => (false, fs)
  | BodyChunk chunk rest =>
      write_chunks rest dest (<[dest := default [] (fs !! dest) ++ chunk]> fs)
  end.

(** [response.raise_for_status()] raises for 4xx and 5xx. *)
Definition raise_for_status (status_code : Z) : bool :=
  (400 <=? status_code) && (status_code <? 600).

Definition download_file (net : string -> Response) (url : string) (dest : Path)
    (w : World) : bool * World :=
  if exists_nonempty (files w) dest then (true, w)
  else
    let w1 := mkWorld (files w) (requests w ++ [url]) in
    match net url with
    | GetRaises => (false, w1)
    | GetReturns status_code body =>
        if status_code =? 404 then (false, w1)
        else if raise_for_status status_code then (false, w1)
        else
          (* open(dest, 'wb') creates or truncates the file *)
          let '(ok, fs') := write_chunks body dest (<[dest := []]> (files w)) in
          (ok, mkWorld fs' (requests w ++ [url]))
    end.

(** The bytes of a body delivered before it ends or breaks. *)
Fixpoint delivered (body : Body) : list Byte.byte :=
  match body with
  | BodyEnd | BodyBroken => []
  | BodyChunk chunk rest => chunk ++ delivered rest
  end.

Fixpoint breaks (body : Body) : bool :=
  match body with
  | BodyEnd => false
  | BodyBroken => true
  | BodyChunk _ rest => breaks rest
  end.

(** A later run fetches the same cell again, each time against whatever
    the network would answer then. *)
Fixpoint fetch_again (nets : list (string -> Response)) (url : string) (dest : Path)
    (w : World) : list bool * World :=
  match nets with
  | [] => ([], w)
  | net :: rest =>
      let '(ok, w1) := download_file net url dest w in
      let '(oks, w2) := fetch_again rest url dest w1 in
      (ok :: oks, w2)
  end.


(** *** Properties of [download_file] *)

Lemma exists_nonempty_spec (fs : FileSystem) (dest : Path) :
  exists_nonempty fs dest = true <->
  exists content, fs !! dest = Some content /\ (0 < length content)%nat.
Proof.
  unfold exists_nonempty. split.
  - destruct (fs !! dest) as [content|] eqn:E; [|discriminate].
    intros H. exists content. split; [reflexivity|].
    apply Z.ltb_lt in H. lia.
  - intros (content & -> & Hlen). apply Z.ltb_lt. lia.
Qed.

Lemma write_chunks_spec (body : Body) (dest : Path) (fs : FileSystem) :
  write_chunks body dest fs =
    (negb (breaks body),
     match body with
     | BodyChunk _ _ => <[dest := default [] (fs !! dest) ++ delivered body]> fs
     | _ => fs
     end).
Proof.
  revert fs. induction body as [| |chunk rest IH]; intros fs; simpl; try reflexivity.
  rewrite IH. f_equal. destruct rest as [| |chunk' rest']; simpl.
  - by rewrite app_nil_r.
  - by rewrite app_nil_r.
  - rewrite lookup_insert_eq. simpl. rewrite insert_insert_eq.
    by rewrite <- app_assoc.
Qed.

Lemma write_chunks_truncated (body : Body) (dest : Path) (fs : FileSystem) :
  delivered body <> [] ->
  write_chunks body dest (<[dest := []]> fs) =
    (negb (breaks body), <[dest := delivered body]> fs).
Proof.
  intros Hbytes. rewrite write_chunks_spec. f_equal.
  destruct body as [| |chunk rest]; try (simpl in Hbytes; congruence).
  rewrite lookup_insert_eq. simpl. by rewrite insert_insert_eq.
Qed.

Lemma fetch_again_present (nets : list (string -> Response)) (url : string)
    (dest : Path) (w : World) :
  exists_nonempty (files w) dest = true ->
  fetch_again nets url dest w = (replicate (length nets) true, w).
Proof.
  intros Hpresent. induction nets as [|net rest IH]; simpl; [reflexivity|].
  unfold download_file. rewrite Hpresent. by rewrite IH.
Qed.

(** C8.  When the destination file exists and is not empty, [download_file]
    returns [True] at once: no request is sent (the request log is the same)
    and the scratch directory, the file included, is left as it was. *)
Theorem download_file_already_present (net : string -> Response) (url : string)
    (dest : Path) (w : World) (content : list Byte.byte) :
  files w !! dest = Some content ->
  (0 < length content)%nat ->
  download_file net url dest w = (true, w).
Proof.
  intros Hfile Hlen. unfold download_file.
  assert (exists_nonempty (files w) dest = true) as ->; [|reflexivity].
  apply exists_nonempty_spec. eauto.
Qed.

(** C10.  A download that breaks after some bytes of the body were written
    (the status was neither 404 nor an error status) returns [False] and
    leaves the bytes received so far in the destination file; every later
    fetch of the same cell, whatever the network would answer, then returns
    [True] without a request and without touching the truncated file. *)
Theorem partial_download_is_kept (net : string -> Response) (url : string)
    (dest : Path) (w : World) (status_code : Z) (body : Body)
    (later : list (string -> Response)) :
  exists_nonempty (files w) dest = false ->
  net url = GetReturns status_code body ->
  status_code <> 404 ->
  raise_for_status status_code = false ->
  breaks body = true ->
  delivered body <> [] ->
  exists w1,
    download_file net url dest w = (false, w1) /\
    files w1 !! dest = Some (delivered body) /\
    fetch_again later url dest w1 = (replicate (length later) true, w1) /\
    requests (snd (fetch_again later url dest w1)) = requests w ++ [url].
Proof.
  intros Habsent Hnet H404 Hstatus Hbreaks Hbytes.
  unfold download_file. rewrite Habsent, Hnet, Hstatus.
  apply Z.eqb_neq in H404. rewrite H404.
  rewrite write_chunks_truncated by exact Hbytes. rewrite Hbreaks. simpl.
  eexists. split; [reflexivity|]. simpl.
  assert (Hfile : (<[dest := delivered body]> (files w) : FileSystem) !! dest
                  = Some (delivered body)) by apply lookup_insert_eq.
  split; [exact Hfile|].
  rewrite fetch_again_present.
  - split; reflexivity.
  - apply exists_nonempty_spec. simpl. eexists. split; [exact Hfile|].
    destruct (delivered body); [congruence|simpl; lia].
Qed.

(** *** Further properties of [download_file] *)

Lemma write_chunks_created (body : Body) (dest : Path) (fs : FileSystem) :
  write_chunks body dest (<[dest := []]> fs) =
    (negb (breaks body), <[dest := delivered body]> fs).
Proof.
  rewrite write_chunks_spec. f_equal.
  destruct body as [| |chunk rest]; try reflexivity.
  rewrite lookup_insert_eq. simpl. by rewrite insert_insert_eq.
Qed.

(** What [download_file] does when it goes to the network, case by case. *)
Lemma download_file_fetch (net : string -> Response) (url : string) (dest : Path)
    (w : World) :
  exists_nonempty (files w) dest = false ->
  download_file net url dest w =
    match net url with
    | GetRaises => (false, mkWorld (files w) (requests w ++ [url]))
    | GetReturns status_code body =>
        if (status_code =? 404) || raise_for_status status_code
        then (false, mkWorld (files w) (requests w ++ [url]))
        else (negb (breaks body),
              mkWorld (<[dest := delivered body]> (files w)) (requests w ++ [url]))
    end.
Proof.
  intros Habsent. unfold download_file. rewrite Habsent.
  destruct (net url) as [|status_code body]; [reflexivity|].
  destruct (status_code =? 404); [reflexivity|]. simpl.
  destruct (raise_for_status status_code); [reflexivity|].
  by rewrite write_chunks_created.
Qed.

(** X1.  A fetch that is refused (no connection, 404, or an error status) returns
    [False] after one request and changes nothing on disk: no file is
    created, and an empty file that was there is left as it was. *)
Theorem refused_download_leaves_disk (net : string -> Response) (url : string)
    (dest : Path) (w : World) :
  exists_nonempty (files w) dest = false ->
  match net url with
  | GetRaises => True
  | GetReturns status_code _ => status_code = 404 \/ 400 <= status_code < 600
  end ->
  download_file net url dest w = (false, mkWorld (files w) (requests w ++ [url])).
Proof.
  intros Habsent Hrefused. rewrite download_file_fetch by exact Habsent.
  destruct (net url) as [|status_code body]; [reflexivity|].
  assert ((status_code =? 404) || raise_for_status status_code = true) as ->;
    [|reflexivity].
  unfold raise_for_status. destruct Hrefused as [->|Hrange]; [reflexivity|].
  apply orb_true_iff. right. apply andb_true_iff. split; [apply Z.leb_le|apply Z.ltb_lt]; lia.
Qed.

(** X2.  A fetch whose body arrives whole returns [True]; the destination then
    holds exactly the chunks of the body in order, whatever it held before,
    and one request was sent. *)
Theorem complete_download_stores_body (net : string -> Response) (url : string)
    (dest : Path) (w : World) (status_code : Z) (body : Body) :
  exists_nonempty (files w) dest = false ->
  net url = GetReturns status_code body ->
  status_code <> 404 ->
  ~ 400 <= status_code < 600 ->
  breaks body = false ->
  download_file net url dest w =
    (true, mkWorld (<[dest := delivered body]> (files w)) (requests w ++ [url])).
Proof.
  intros Habsent Hnet H404 Hstatus Hwhole.
  rewrite download_file_fetch by exact Habsent. rewrite Hnet.
  assert ((status_code =? 404) || raise_for_status status_code = false) as ->.
  { apply orb_false_iff. split; [by apply Z.eqb_neq|].
    unfold raise_for_status. apply andb_false_iff.
    destruct (Z_le_gt_dec 400 status_code).
    - right. apply Z.ltb_ge. lia.
    - left. apply Z.leb_gt. lia. }
  by rewrite Hwhole.
Qed.

Lemma download_file_effects (net : string -> Response) (url : string) (dest : Path)
    (w : World) :
  let '(ok, w') := download_file net url dest w in
  (requests w' = requests w \/ requests w' = requests w ++ [url]) /\
  (forall other, other <> dest -> files w' !! other = files w !! other) /\
  (forall path, is_Some (files w !! path) -> is_Some (files w' !! path)) /\
  (ok = true -> is_Some (files w' !! dest)).
Proof.
  destruct (exists_nonempty (files w) dest) eqn:Hpresent.
  - unfold download_file. rewrite Hpresent.
    split; [by left|]. split; [done|]. split; [done|]. intros _.
    apply exists_nonempty_spec in Hpresent as (content & -> & _). by eexists.
  - rewrite download_file_fetch by exact Hpresent.
    assert (Hins : forall content,
      (forall other, other <> dest ->
         (<[dest := content]> (files w) : FileSystem) !! other = files w !! other) /\
      (forall path, is_Some (files w !! path) ->
         is_Some ((<[dest := content]> (files w) : FileSystem) !! path))).
    { intros content. split.
      - intros other Hne. by apply lookup_insert_ne.
      - intros path Hsome. destruct (decide (dest = path)) as [->|Hne].
        + rewrite lookup_insert_eq. by eexists.
        + by rewrite lookup_insert_ne. }
    destruct (net url) as [|status_code body]; cbn [files requests].
    + split; [by right|]. split; [done|]. split; [done|]. discriminate.
    + destruct ((status_code =? 404) || raise_for_status status_code);
        cbn [files requests].
      * split; [by right|]. split; [done|]. split; [done|]. discriminate.
      * split; [by right|]. destruct (Hins (delivered body)) as [H1 H2].
        split; [exact H1|]. split; [exact H2|]. intros _.
        rewrite lookup_insert_eq. by eexists.
Qed.

(** X3.  Whatever the network answers, [download_file] sends at most one request,
    touches no file but its destination, never removes a file, and, when it
    returns [True], the destination exists. *)
Theorem download_file_frame (net : string -> Response) (url : string) (dest : Path)
    (w : World) :
  let '(ok, w') := download_file net url dest w in
  (requests w' = requests w \/ requests w' = requests w ++ [url]) /\
  (forall other, other <> dest -> files w' !! other = files w !! other) /\
  (forall path, is_Some (files w !! path) -> is_Some (files w' !! path)) /\
  (ok = true -> is_Some (files w' !! dest)).
Proof. apply download_file_effects. Qed.

End Download.

(** ** RecordStream and BulkLoader: [import_csv_file], [insert_batch] *)

(** A row as [csv.DictReader] yields it: a dict from the column names of the
    header to the text of the field, or to [None] where the line is short. *)
Abbreviation Row := (gmap string (option string)) (only parsing).

(** One element of [batch]: the tuple [(geometry, plus_code, confidence, area)]. *)
Record ParsedRecord : Type := mkParsedRecord {
  geometry : string;
  plus_code : option string;
  confidence : option float;
  area : option float
}.

(** A shard as the reader delivers it: the rows read, and the exception that
    ends the iteration when the gzip stream is damaged. *)
Record Shard : Type := mkShard {
  shard_rows : list Row;
  shard_end : option exn
}.

Section Loader.

(** [float(s)] on a string: the number, or [None] where Python raises
    [ValueError]. *)
Variable py_float : string -> option float.

(** The spatial functions of the database.  [ST_GeomFromText] is [None] where
    the database raises on the text: the error that fails a statement. *)
Variable Geom : Type.
Variable ST_GeomFromText : string -> option Geom.
Variable ST_Multi : Geom -> Geom.

(** A row of the table [buildings], with the columns the statement names. *)
Record StoredRow : Type := mkStoredRow {
  osm_id : option Z;
  osm_type : string;
  geometry_col : Geom;
  source : string;
  external_id : option string;
  confidence_col : option float;
  area_m2 : option float
}.

(** What the columns of the table take.  The migration declares
    [external_id VARCHAR(100)], [confidence REAL] and [area_m2 REAL]; the
    database raises on a row with a value its column refuses (a number out
    of the range of [REAL], a text longer than the column), and the
    statement fails.  Which values the columns take is given. *)
Variable fits_columns : StoredRow -> bool.

(** Modelled from the spec: the uniqueness constraint of the table
    [buildings] that [ON CONFLICT DO NOTHING] relies on.  The constraint is
    declared in the migrations, not in the scripts; it is taken as the key of
    a row, which is [None] for a row with NULL in a column of the constraint.
    Two rows are in conflict when they have the same key; a row without key
    is in conflict with no row, as a unique index has it. *)
Variable Key : Type.
Context `{EqDecision Key}.
Variable unique_key : StoredRow -> option Key.

(** *** The database *)

(** The template of the statement, evaluated on one element of the batch:
    [(NULL, 'way', ST_Multi(ST_GeomFromText(%s, 4326)), 'google', %s, %s, %s)];
    [None] where the database raises, on the geometry or on a value a column
    refuses. *)
Definition values_row (r : ParsedRecord) : option StoredRow :=
  match ST_GeomFromText (geometry r) with
  | Some g =>
      let row := mkStoredRow None "way" (ST_Multi g) "google"
                   (plus_code r) (confidence r) (area r) in
      if fits_columns row then Some row else None
  | None => None
  end.

Definition conflicts (table : list StoredRow) (row : StoredRow) : bool :=
  match unique_key row with
  | Some k => bool_decide (Some k ∈ unique_key <$> table)
  | None => false
  end.

(** [INSERT ... ON CONFLICT DO NOTHING] on evaluated rows: a row that
    conflicts with the table, or with a row inserted before it by the same
    statement, is passed over; the count is the number of rows inserted. *)
Fixpoint insert_do_nothing (rows : list StoredRow) (table : list StoredRow)
    : list StoredRow * Z :=
  match rows with
  | [] => (table, 0)
  | row :: rest =>
      if conflicts table row then insert_do_nothing rest table
      else
        let '(table', n) := insert_do_nothing rest (table ++ [row]) in
        (table', 1 + n)
  end.

(** A connection: the committed table and the table as the open transaction
    sees it. *)
Record Conn : Type := mkConn {
  committed : list StoredRow;
  session : list StoredRow
}.

Definition connect (table : list StoredRow) : Conn := mkConn table table.
Definition commit (c : Conn) : Conn := mkConn (session c) (session c).
Definition rollback (c : Conn) : Conn := mkConn (committed c) (committed c).

(** [cur.execute] of one insert statement: [None] where it raises (the
    statement then changes nothing), otherwise [cur.rowcount]. *)
Definition execute (records : list ParsedRecord) (c : Conn) : option Z * Conn :=
  match mapM values_row records with
  | Some rows =>
      let '(table', n) := insert_do_nothing rows (session c) in
      (Some n, mkConn (committed c) table')
  | None => (None, c)
  end.

(** [psycopg2.extras.execute_values]: the arguments are cut into pages of
    [page_size], one statement is executed per page, and [cur.rowcount] is
    left as the last statement set it. *)
Fixpoint paginate_fuel (fuel : nat) (page_size : nat) (seq : list ParsedRecord)
    : list (list ParsedRecord) :=
  match fuel, seq with
  | _, [] => []
  | O, _ => []
  | S fuel', _ => take page_size seq :: paginate_fuel fuel' page_size (drop page_size seq)
  end.

Definition paginate (page_size : nat) (seq : list ParsedRecord) : list (list ParsedRecord) :=
  paginate_fuel (length seq) page_size seq.

Fixpoint execute_pages (pages : list (list ParsedRecord)) (rowcount : Z) (c : Conn)
    : option Z * Conn :=
  match pages with
  | [] => (Some rowcount, c)
  | page :: rest =>
      match execute page c with
      | (Some n, c') => execute_pages rest n c'
      | (None, c') => (None, c')
      end
  end.

Definition execute_values (argslist : list ParsedRecord) (page_size : nat) (c : Conn)
    : option Z * Conn :=
  execute_pages (paginate page_size argslist) (-1) c.

(** *** [insert_batch] *)

(** The fallback loop: one statement and one commit per record, a rollback
    for a record whose statement raises. *)
Fixpoint insert_each (batch : list ParsedRecord) (inserted : Z) (c : Conn) : Z * Conn :=
  match batch with
  | [] => (inserted, c)
  | r :: rest =>
      match execute [r] c with
      | (Some n, c') => insert_each rest (inserted + n) (commit c')
      | (None, c') => insert_each rest inserted (rollback c')
      end
  end.

Definition insert_batch (c : Conn) (batch : list ParsedRecord) : Z * Conn :=
  match batch with
  | [] => (0, c)
  | _ =>
      match execute_values batch 1000 c with
      | (Some inserted, c') => (inserted, commit c')
      | (None, c') => insert_each batch 0 (rollback c')
      end
  end.

(** *** [import_csv_file] *)

(** [row[key]] *)
Definition getitem (row : Row) (key : string) : Exc (option string) :=
  match row !! key with
  | Some v => Return v
  | None => Raise KeyError
  end.

(** [float(v)]: [TypeError] on [None], [ValueError] on text that is no number. *)
Definition float_of (v : option string) : Exc float :=
  match v with
  | None => Raise TypeError
  | Some s =>
      match py_float s with
      | Some x => Return x
      | None => Raise ValueError
      end
  end.

Definition truthy (v : option string) : bool :=
  match v with
  | None | Some EmptyString => false
  | Some _ => true
  end.

(** [float(row[key]) if row[key] else None] *)
Definition optional_float (row : Row) (key : string) : Exc (option float) :=
  (let* v := getitem row key in
   if truthy v then (let* x := float_of v in Return (Some x)) else Return None)%exc.

(** The body of the [try] up to [batch.append]: the record to append, or
    [None] where the body runs into [continue] after counting a skip. *)
Definition read_row (row : Row) (bounds : Bounds) : Exc (option ParsedRecord) :=
  (let* lat_s := getitem row "latitude" in
   let* lat := float_of lat_s in
   let* lon_s := getitem row "longitude" in
   let* lon := float_of lon_s in
   if negb (is_in_bounds lat lon bounds) then Return None
   else
     let* area := optional_float row "area_in_meters" in
     let* confidence := optional_float row "confidence" in
     let* geometry := getitem row "geometry" in
     let* plus_code := getitem row "full_plus_code" in
     if negb (truthy geometry) then Return None
     else Return (Some (mkParsedRecord (default "" geometry) plus_code confidence area)))%exc.

(** The [try] with its handler [except (ValueError, KeyError)]: what becomes
    of one row. *)
Inductive RowOutcome : Type :=
  | Yielded (r : ParsedRecord)
  | Skipped
  | Crashed (e : exn).

Definition row_outcome (row : Row) (bounds : Bounds) : RowOutcome :=
  match read_row row bounds with
  | Return (Some r) => Yielded r
  | Return None => Skipped
  | Raise ValueError | Raise KeyError => Skipped
  | Raise e => Crashed e
  end.

(** The local variables of the loop. *)
Record Loop : Type := mkLoop {
  imported : Z;
  skipped : Z;
  processed : Z;
  batch : list ParsedRecord
}.

(** [for row in reader: ...] *)
Fixpoint import_rows (bounds : Bounds) (batch_size : Z) (rows : list Row)
    (st : Loop) (c : Conn) : Exc Loop * Conn :=
  match rows with
  | [] => (Return st, c)
  | row :: rest =>
      let processed' := processed st + 1 in
      match row_outcome row bounds with
      | Skipped =>
          import_rows bounds batch_size rest
            (mkLoop (imported st) (skipped st + 1) processed' (batch st)) c
      | Yielded r =>
          let batch' := batch st ++ [r] in
          if Z.of_nat (length batch') >=? batch_size then
            let '(n, c') := insert_batch c batch' in
            import_rows bounds batch_size rest
              (mkLoop (imported st + n) (skipped st) processed' []) c'
          else
            import_rows bounds batch_size rest
              (mkLoop (imported st) (skipped st) processed' batch') c
      | Crashed e => (Raise e, c)
      end
  end.

Definition import_csv_file (c : Conn) (shard : Shard) (bounds : Bounds)
    (batch_size : Z) : Exc (Z * Z) * Conn :=
  match import_rows bounds batch_size (shard_rows shard) (mkLoop 0 0 0 []) c with
  | (Raise e, c') => (Raise e, c')
  | (Return st, c') =>
      match shard_end shard with
      | Some e => (Raise e, c')
      | None =>
          match batch st with
          | [] => (Return (imported st, skipped st), c')
          | _ =>
              let '(n, c'') := insert_batch c' (batch st) in
              (Return (imported st + n, skipped st), c'')
          end
      end
  end.

(** *** The import loop of [main] *)

(** The gzip and CSV readers on the bytes of a scratch file. *)
Variable read_shard : list Byte.byte -> Shard.

(** [for filepath in downloaded_files: ...] with the running totals. *)
Fixpoint import_files (fs : FileSystem) (bounds : Bounds) (downloaded_files : list Path)
    (total_imported total_skipped : Z) (c : Conn) : Exc (Z * Z) * Conn :=
  match downloaded_files with
  | [] => (Return (total_imported, total_skipped), c)
  | filepath :: rest =>
      match fs !! filepath with
      | None => import_files fs bounds rest total_imported total_skipped c
      | Some content =>
          if Z.of_nat (length content) =? 0 then
            import_files fs bounds rest total_imported total_skipped c
          else
            match import_csv_file c (read_shard content) bounds 5000 with
            | (Return (imported, skipped), c') =>
                import_files fs bounds rest
                  (total_imported + imported) (total_skipped + skipped) c'
            | (Raise e, c') => (Raise e, c')
            end
      end
  end.

(** *** Notions used in the statements *)

Definition keys (table : list StoredRow) : list (option Key) := unique_key <$> table.

Definition clean (c : Conn) : Prop := session c = committed c.

(** A record the database accepts has its key in the table. *)
Definition covered (table : list StoredRow) (r : ParsedRecord) : Prop :=
  forall row, values_row r = Some row -> unique_key row ∈ keys table.

(** A record the database accepts gives a row that has a key: no column of
    the constraint is NULL. *)
Definition keyed (r : ParsedRecord) : Prop :=
  forall row, values_row r = Some row -> is_Some (unique_key row).

(** The rows a statement adds are appended to the table, and each of them is
    the evaluation of a record of the batch. *)
Definition extends (records : list ParsedRecord) (table table' : list StoredRow) : Prop :=
  exists added,
    table' = table ++ added /\
    Forall (fun row => exists r, r ∈ records /\ values_row r = Some row) added.

(** The record a row yields, if it yields one. *)
Definition yield_of (bounds : Bounds) (row : Row) : option ParsedRecord :=
  match row_outcome row bounds with
  | Yielded r => Some r
  | _ => None
  end.

(** The records the stream yields from the rows, in order. *)
Definition yielded (bounds : Bounds) (rows : list Row) : list ParsedRecord :=
  omap (yield_of bounds) rows.

(** The number of rows that run into [skipped += 1]. *)
Fixpoint count_skipped (bounds : Bounds) (rows : list Row) : Z :=
  match rows with
  | [] => 0
  | row :: rest =>
      match row_outcome row bounds with
      | Skipped => 1 + count_skipped bounds rest
      | _ => count_skipped bounds rest
      end
  end.

Definition no_crash (bounds : Bounds) (row : Row) : Prop :=
  forall e, row_outcome row bounds <> Crashed e.

(** [lat] and [lon] as the loop parses them from a row. *)
Definition centroid (row : Row) : Exc (float * float) :=
  (let* lat_s := getitem row "latitude" in
   let* lat := float_of lat_s in
   let* lon_s := getitem row "longitude" in
   let* lon := float_of lon_s in
   Return (lat, lon))%exc.

(** The batches of a load, sent one after the other: the sum of the counts
    [insert_batch] returns and the connection at the end. *)
Fixpoint load_batches (batches : list (list ParsedRecord)) (c : Conn) : Z * Conn :=
  match batches with
  | [] => (0, c)
  | b :: rest =>
      let '(n, c1) := insert_batch c b in
      let '(m, c2) := load_batches rest c1 in
      (n + m, c2)
  end.

(** The loop of [import_csv_file] seen from the records it appends: the
    count so far, the buffer, the connection. *)
Fixpoint feed (batch_size : Z) (records : list ParsedRecord) (n_imported : Z)
    (buffer : list ParsedRecord) (c : Conn) : Z * list ParsedRecord * Conn :=
  match records with
  | [] => (n_imported, buffer, c)
  | r :: rest =>
      let buffer' := buffer ++ [r] in
      if Z.of_nat (length buffer') >=? batch_size then
        let '(n, c') := insert_batch c buffer' in
        feed batch_size rest (n_imported + n) [] c'
      else feed batch_size rest n_imported buffer' c
  end.

Ltac list_incl :=
  let x := fresh "x" in
  let Hx := fresh "Hx" in
  intros x Hx;
  repeat first
    [ apply elem_of_app in Hx as [Hx|Hx]
    | apply elem_of_cons in Hx as [Hx|Hx]
    | apply elem_of_nil in Hx; destruct Hx ];
  subst;
  repeat (rewrite elem_of_app || rewrite elem_of_cons); auto 10.

(** *** Facts about the database *)

Lemma conflicts_true (table : list StoredRow) (row : StoredRow) :
  conflicts table row = true <->
  is_Some (unique_key row) /\ unique_key row ∈ keys table.
Proof.
  unfold conflicts, keys. destruct (unique_key row) as [k|].
  - rewrite bool_decide_eq_true. split; [by split|by intros [_ ?]].
  - split; [discriminate|]. intros [[k Hk] _]. discriminate.
Qed.

Lemma conflicts_fresh (table : list StoredRow) (row : StoredRow) :
  unique_key row ∉ keys table -> conflicts table row = false.
Proof.
  unfold conflicts, keys. intros Hnew.
  destruct (unique_key row) as [k|]; [|reflexivity]. by apply bool_decide_eq_false.
Qed.

Lemma keys_app (t1 t2 : list StoredRow) : keys (t1 ++ t2) = keys t1 ++ keys t2.
Proof. unfold keys. apply fmap_app. Qed.

Lemma insert_do_nothing_spec (rows table : list StoredRow) :
  exists added,
    insert_do_nothing rows table = (table ++ added, Z.of_nat (length added)) /\
    added `sublist_of` rows /\
    Forall (fun row => unique_key row ∈ keys (table ++ added)) rows.
Proof.
  revert table. induction rows as [|row rest IH]; intros table; simpl.
  - exists []. rewrite app_nil_r. repeat split; constructor.
  - destruct (conflicts table row) eqn:Hc.
    + destruct (IH table) as (added & -> & Hsub & Hcov).
      exists added. repeat split; [by apply sublist_cons|].
      constructor; [|exact Hcov].
      apply conflicts_true in Hc as [_ Hc]. rewrite keys_app. apply elem_of_app. by left.
    + destruct (IH (table ++ [row])) as (added & -> & Hsub & Hcov).
      exists (row :: added). rewrite <- app_assoc in *. simpl in *.
      repeat split.
      * f_equal. lia.
      * by apply sublist_skip.
      * constructor; [|exact Hcov]. rewrite keys_app. unfold keys at 2.
        rewrite fmap_cons. apply elem_of_app. right. apply elem_of_cons. by left.
Qed.

Lemma insert_do_nothing_covered (rows table : list StoredRow) :
  Forall (fun row => is_Some (unique_key row) /\ unique_key row ∈ keys table) rows ->
  insert_do_nothing rows table = (table, 0).
Proof.
  induction 1 as [|row rest Hrow _ IH]; simpl; [reflexivity|].
  apply conflicts_true in Hrow. by rewrite Hrow.
Qed.

Lemma insert_do_nothing_fresh (rows table : list StoredRow) :
  NoDup (keys rows) ->
  Forall (fun row => unique_key row ∉ keys table) rows ->
  insert_do_nothing rows table = (table ++ rows, Z.of_nat (length rows)).
Proof.
  revert table. induction rows as [|row rest IH]; intros table Hnd Hfresh; simpl.
  - by rewrite app_nil_r.
  - unfold keys in Hnd. rewrite fmap_cons in Hnd.
    apply NoDup_cons in Hnd as [Hrow Hnd].
    apply Forall_cons in Hfresh as [Hnew Hfresh].
    apply conflicts_fresh in Hnew. rewrite Hnew.
    rewrite IH.
    + rewrite <- app_assoc. simpl. f_equal. lia.
    + exact Hnd.
    + apply Forall_forall. intros r Hr. rewrite keys_app.
      rewrite Forall_forall in Hfresh. specialize (Hfresh r Hr).
      unfold keys at 2. simpl. intros Hin.
      apply elem_of_app in Hin as [Hin|Hin]; [by apply Hfresh|].
      apply list_elem_of_singleton in Hin.
      apply Hrow. rewrite <- Hin. by apply list_elem_of_fmap_2.
Qed.

Lemma extends_refl (records : list ParsedRecord) (table : list StoredRow) :
  extends records table table.
Proof. exists []. by rewrite app_nil_r. Qed.

Lemma extends_trans (r1 r2 r : list ParsedRecord) (t1 t2 t3 : list StoredRow) :
  r1 ⊆ r -> r2 ⊆ r ->
  extends r1 t1 t2 -> extends r2 t2 t3 -> extends r t1 t3.
Proof.
  intros H1 H2 (a1 & -> & Ha1) (a2 & -> & Ha2).
  exists (a1 ++ a2). split; [by rewrite app_assoc|].
  apply Forall_app. split.
  - eapply Forall_impl; [exact Ha1|]. intros row (x & Hx & Hv). exists x. auto.
  - eapply Forall_impl; [exact Ha2|]. intros row (x & Hx & Hv). exists x. auto.
Qed.

Lemma extends_keys (records : list ParsedRecord) (t t' : list StoredRow)
    (k : option Key) :
  extends records t t' -> k ∈ keys t -> k ∈ keys t'.
Proof. intros (added & -> & _) Hk. rewrite keys_app. apply elem_of_app. by left. Qed.

Lemma covered_extends (records : list ParsedRecord) (t t' : list StoredRow)
    (r : ParsedRecord) :
  extends records t t' -> covered t r -> covered t' r.
Proof. intros Hext Hcov row Hrow. eapply extends_keys; eauto. Qed.

Lemma commit_clean (c : Conn) : clean c -> commit c = c.
Proof. destruct c as [t s]. unfold clean, commit. simpl. by intros ->. Qed.

Lemma rollback_clean (c : Conn) : clean c -> rollback c = c.
Proof. destruct c as [t s]. unfold clean, rollback. simpl. by intros ->. Qed.

Lemma mapM_values_rows (records : list ParsedRecord) (rows : list StoredRow) :
  mapM values_row records = Some rows ->
  Forall2 (fun r row => values_row r = Some row) records rows.
Proof. apply mapM_Some_1. Qed.

Lemma execute_spec (records : list ParsedRecord) (c : Conn) :
  match execute records c with
  | (Some n, c') =>
      Forall (fun r => is_Some (values_row r)) records /\
      committed c' = committed c /\
      extends records (session c) (session c') /\
      Forall (covered (session c')) records /\
      0 <= n <= Z.of_nat (length records)
  | (None, c') => c' = c /\ Exists (fun r => values_row r = None) records
  end.
Proof.
  unfold execute. destruct (mapM values_row records) as [rows|] eqn:Hrows.
  - destruct (insert_do_nothing_spec rows (session c)) as (added & -> & Hsub & Hcov).
    apply mapM_values_rows in Hrows. simpl.
    split; [|split; [reflexivity|split; [|split]]].
    + eapply Forall2_Forall_l; [exact Hrows|].
      apply Forall_forall. intros row _ r ->. by eexists.
    + exists added. split; [reflexivity|].
      apply Forall_forall. intros row Hrow.
      assert (Hin : row ∈ rows) by (eapply elem_of_sublist; eauto).
      apply list_elem_of_lookup in Hin as [i Hi].
      destruct (Forall2_lookup_r _ _ _ i row Hrows Hi) as (r & Hr & Hv).
      exists r. split; [|exact Hv]. eapply list_elem_of_lookup_2; eauto.
    + apply Forall_forall. intros r Hr row Hrow.
      apply list_elem_of_lookup in Hr as [i Hi].
      destruct (Forall2_lookup_l _ _ _ i r Hrows Hi) as (row' & Hrow' & Hv).
      rewrite Hrow in Hv. injection Hv as <-.
      rewrite Forall_forall in Hcov. apply Hcov.
      eapply list_elem_of_lookup_2; eauto.
    + apply sublist_length in Hsub. apply Forall2_length in Hrows. lia.
  - split; [reflexivity|]. by apply mapM_None_1.
Qed.

Lemma execute_pages_spec (pages : list (list ParsedRecord)) (rowcount : Z) (c : Conn) :
  match execute_pages pages rowcount c with
  | (Some n, c') =>
      Forall (fun r => is_Some (values_row r)) (concat pages) /\
      committed c' = committed c /\
      extends (concat pages) (session c) (session c') /\
      Forall (covered (session c')) (concat pages) /\
      (pages = [] /\ n = rowcount \/
       pages <> [] /\ 0 <= n <= Z.of_nat (length (concat pages)))
  | (None, c') =>
      committed c' = committed c /\
      Exists (fun r => values_row r = None) (concat pages)
  end.
Proof.
  revert rowcount c. induction pages as [|page rest IH]; intros rowcount c; simpl.
  - split; [constructor|]. split; [reflexivity|]. split; [apply extends_refl|].
    split; [constructor|]. by left.
  - pose proof (execute_spec page c) as Hpage.
    destruct (execute page c) as [[n|] c1].
    + destruct Hpage as (Hvalid & Hcomm & Hext & Hcov & Hn).
      specialize (IH n c1).
      destruct (execute_pages rest n c1) as [[m|] c2].
      * destruct IH as (Hvalid' & Hcomm' & Hext' & Hcov' & Hm).
        split; [by apply Forall_app|].
        split; [congruence|].
        split; [eapply extends_trans; [| |exact Hext|exact Hext'];
                  intros x Hx; apply elem_of_app; auto|].
        split.
        -- apply Forall_app. split; [|exact Hcov'].
           eapply Forall_impl; [exact Hcov|]. intros r. by apply covered_extends with (concat rest).
        -- right. split; [discriminate|]. rewrite length_app.
           destruct Hm as [[_ ->]|[_ Hm]]; lia.
      * destruct IH as (Hcomm' & Hbad). split; [congruence|].
        apply Exists_app. by right.
    + destruct Hpage as (-> & Hbad). split; [reflexivity|].
      apply Exists_app. by left.
Qed.

Lemma paginate_fuel_concat (fuel page_size : nat) (seq : list ParsedRecord) :
  (0 < page_size)%nat -> (length seq <= fuel)%nat ->
  concat (paginate_fuel fuel page_size seq) = seq.
Proof.
  intros Hpos. revert seq.
  induction fuel as [|fuel IH]; intros seq Hlen.
  - destruct seq; [reflexivity|simpl in Hlen; lia].
  - destruct seq as [|x seq']; [reflexivity|].
    change (paginate_fuel (S fuel) page_size (x :: seq'))
      with (take page_size (x :: seq')
              :: paginate_fuel fuel page_size (drop page_size (x :: seq'))).
    cbn [concat]. rewrite IH.
    + apply take_drop.
    + rewrite length_drop. simpl in *. lia.
Qed.

Lemma paginate_concat (page_size : nat) (seq : list ParsedRecord) :
  (0 < page_size)%nat -> concat (paginate page_size seq) = seq.
Proof. intros Hpos. by apply paginate_fuel_concat. Qed.

Lemma paginate_nonempty (page_size : nat) (seq : list ParsedRecord) :
  seq <> [] -> paginate page_size seq <> [].
Proof. destruct seq; [congruence|discriminate]. Qed.

Lemma execute_values_spec (batch : list ParsedRecord) (c : Conn) :
  batch <> [] ->
  match execute_values batch 1000 c with
  | (Some n, c') =>
      Forall (fun r => is_Some (values_row r)) batch /\
      committed c' = committed c /\
      extends batch (session c) (session c') /\
      Forall (covered (session c')) batch /\
      0 <= n <= Z.of_nat (length batch)
  | (None, c') =>
      committed c' = committed c /\
      Exists (fun r => values_row r = None) batch
  end.
Proof.
  intros Hne. unfold execute_values.
  pose proof (execute_pages_spec (paginate 1000 batch) (-1) c) as H.
  rewrite paginate_concat in H by lia.
  destruct (execute_pages (paginate 1000 batch) (-1) c) as [[n|] c']; [|exact H].
  destruct H as (? & ? & ? & ? & [[Hnil _]|[_ Hn]]).
  - exfalso. by apply (paginate_nonempty 1000 batch).
  - repeat split; try done; lia.
Qed.

Lemma insert_each_spec (batch : list ParsedRecord) (inserted : Z) (c : Conn) :
  clean c ->
  match insert_each batch inserted c with
  | (n, c') =>
      clean c' /\
      extends batch (committed c) (committed c') /\
      Forall (covered (committed c')) batch /\
      inserted <= n <= inserted + Z.of_nat (length batch)
  end.
Proof.
  revert inserted c. induction batch as [|r rest IH]; intros inserted c Hclean; simpl.
  - repeat split; try done; try lia. apply extends_refl.
  - pose proof (execute_spec [r] c) as Hone.
    destruct (execute [r] c) as [[n|] c1].
    + destruct Hone as (_ & _ & Hext & Hcov & Hn).
      specialize (IH (inserted + n) (commit c1) eq_refl).
      destruct (insert_each rest (inserted + n) (commit c1)) as [m c2].
      destruct IH as (Hclean2 & Hext2 & Hcov2 & Hm). simpl in *.
      rewrite Hclean in Hext.
      split; [exact Hclean2|].
      split; [eapply extends_trans; [| |exact Hext|exact Hext2]; list_incl|].
      split; [|lia].
      constructor; [|exact Hcov2].
      apply Forall_inv in Hcov. by apply covered_extends with rest (session c1).
    + destruct Hone as (-> & Hbad).
      rewrite (rollback_clean c Hclean).
      specialize (IH inserted c Hclean).
      destruct (insert_each rest inserted c) as [m c2].
      destruct IH as (Hclean2 & Hext2 & Hcov2 & Hm).
      split; [exact Hclean2|].
      split; [eapply extends_trans; [| |apply (extends_refl [])|exact Hext2]; list_incl|].
      split; [|lia].
      constructor; [|exact Hcov2].
      apply Exists_cons in Hbad as [Hbad|Hbad]; [|by apply Exists_nil in Hbad].
      intros row Hrow. congruence.
Qed.

(** What [insert_batch] does to a connection with no open transaction: it
    leaves none open, it only appends rows that are records of the batch, every
    record the database accepts has its key in the table afterwards, and the
    count it returns is between 0 and the size of the batch. *)
Lemma insert_batch_spec (c : Conn) (batch : list ParsedRecord) :
  clean c ->
  match insert_batch c batch with
  | (n, c') =>
      clean c' /\
      extends batch (committed c) (committed c') /\
      Forall (covered (committed c')) batch /\
      0 <= n <= Z.of_nat (length batch)
  end.
Proof.
  intros Hclean. unfold insert_batch.
  destruct batch as [|r rest].
  { repeat split; try done. apply extends_refl. }
  remember (r :: rest) as batch eqn:Hbatch.
  assert (Hne : batch <> []) by (subst; discriminate).
  pose proof (execute_values_spec batch c Hne) as Hbulk.
  destruct (execute_values batch 1000 c) as [[n|] c1].
  - destruct Hbulk as (_ & Hcomm & Hext & Hcov & Hn).
    rewrite Hclean in Hext. repeat split; try done; lia.
  - destruct Hbulk as (Hcomm & _).
    pose proof (insert_each_spec batch 0 (rollback c1) eq_refl) as Heach.
    destruct (insert_each batch 0 (rollback c1)) as [n c2].
    simpl in Heach. rewrite Hcomm in Heach.
    destruct Heach as (? & ? & ? & ?). repeat split; try done; lia.
Qed.

(** *** Statements that change nothing, statements that insert everything *)

Lemma covered_mono (t t' : list StoredRow) (r : ParsedRecord) :
  (forall k, k ∈ keys t -> k ∈ keys t') -> covered t r -> covered t' r.
Proof. intros Hsub Hcov row Hrow. auto. Qed.

Lemma conn_eta (c : Conn) : mkConn (committed c) (session c) = c.
Proof. by destruct c. Qed.

Lemma execute_invalid (records : list ParsedRecord) (c : Conn) :
  Exists (fun r => values_row r = None) records ->
  execute records c = (None, c).
Proof. intros Hbad. unfold execute. by rewrite (mapM_None_2 _ _ Hbad). Qed.

Lemma execute_covered (records : list ParsedRecord) (c : Conn) :
  Forall (fun r => is_Some (values_row r)) records ->
  Forall keyed records ->
  Forall (covered (session c)) records ->
  execute records c = (Some 0, c).
Proof.
  intros Hvalid Hkeyed Hcov. unfold execute.
  destruct (mapM_is_Some_2 values_row records Hvalid) as [rows Hrows].
  rewrite Hrows. apply mapM_values_rows in Hrows.
  rewrite insert_do_nothing_covered; [by rewrite conn_eta|].
  apply Forall_forall. intros row Hrow.
  apply list_elem_of_lookup in Hrow as [i Hi].
  destruct (Forall2_lookup_r _ _ _ i row Hrows Hi) as (r & Hr & Hv).
  assert (Hin : r ∈ records) by (eapply list_elem_of_lookup_2; eauto).
  rewrite Forall_forall in Hcov, Hkeyed.
  split; [by apply (Hkeyed r Hin)|by apply (Hcov r Hin)].
Qed.

Lemma values_row_dec (records : list ParsedRecord) :
  Forall (fun r => is_Some (values_row r)) records \/
  Exists (fun r => values_row r = None) records.
Proof.
  induction records as [|r rest [IH|IH]].
  - left. constructor.
  - destruct (values_row r) eqn:Hr.
    + left. constructor; [by rewrite Hr|exact IH].
    + right. by left.
  - right. by right.
Qed.

Lemma execute_pages_covered (pages : list (list ParsedRecord)) (rowcount : Z) (c : Conn) :
  Forall keyed (concat pages) ->
  Forall (covered (session c)) (concat pages) ->
  exists res,
    execute_pages pages rowcount c = (res, c) /\
    (res = None \/ res = Some rowcount /\ pages = [] \/ res = Some 0 /\ pages <> []).
Proof.
  revert rowcount. induction pages as [|page rest IH]; intros rowcount Hkeyed Hcov; simpl.
  - exists (Some rowcount). auto.
  - simpl in Hcov, Hkeyed. apply Forall_app in Hcov as [Hpage Hrest].
    apply Forall_app in Hkeyed as [Hkpage Hkrest].
    destruct (values_row_dec page) as [Hvalid|Hbad].
    + rewrite execute_covered by assumption.
      destruct (IH 0 Hkrest Hrest) as (res & -> & Hres). exists res. split; [reflexivity|].
      destruct Hres as [->|[[-> _]|[-> _]]]; auto.
    + rewrite execute_invalid by assumption. exists None. auto.
Qed.

Lemma insert_each_covered (batch : list ParsedRecord) (inserted : Z) (c : Conn) :
  clean c ->
  Forall keyed batch ->
  Forall (covered (committed c)) batch ->
  insert_each batch inserted c = (inserted, c).
Proof.
  intros Hclean. revert inserted.
  induction batch as [|r rest IH]; intros inserted Hkeyed Hcov; simpl; [reflexivity|].
  apply Forall_cons in Hcov as [Hr Hrest].
  apply Forall_cons in Hkeyed as [Hkr Hkrest].
  destruct (values_row r) eqn:Hv.
  - rewrite execute_covered.
    + rewrite commit_clean by exact Hclean. rewrite Z.add_0_r. by apply IH.
    + constructor; [by rewrite Hv|constructor].
    + by constructor.
    + rewrite Hclean. by constructor.
  - rewrite execute_invalid by (by left).
    rewrite rollback_clean by exact Hclean. by apply IH.
Qed.

(** When every record of the batch that the database accepts conflicts with
    a stored row (it has a key, and the key is in the table),
    [insert_batch] inserts nothing and returns 0, through the set-based
    statement or through the fallback. *)
Lemma insert_batch_covered (c : Conn) (batch : list ParsedRecord) :
  clean c ->
  Forall keyed batch ->
  Forall (covered (committed c)) batch ->
  insert_batch c batch = (0, c).
Proof.
  intros Hclean Hkeyed Hcov. unfold insert_batch.
  destruct batch as [|r rest]; [reflexivity|].
  remember (r :: rest) as batch eqn:Hbatch.
  unfold execute_values.
  destruct (execute_pages_covered (paginate 1000 batch) (-1) c) as (res & -> & Hres).
  { by rewrite paginate_concat by lia. }
  { rewrite paginate_concat by lia. by rewrite Hclean. }
  destruct Hres as [->|[[_ Hnil]|[-> _]]].
  - rewrite rollback_clean by exact Hclean. by apply insert_each_covered.
  - exfalso. apply (paginate_nonempty 1000 batch); [subst; discriminate|exact Hnil].
  - by rewrite commit_clean.
Qed.

Lemma insert_each_fresh (batch : list ParsedRecord) (inserted : Z) (table : list StoredRow) :
  NoDup (keys (omap values_row batch)) ->
  Forall (fun row => unique_key row ∉ keys table) (omap values_row batch) ->
  insert_each batch inserted (connect table) =
    (inserted + Z.of_nat (length (omap values_row batch)),
     connect (table ++ omap values_row batch)).
Proof.
  revert inserted table.
  induction batch as [|r rest IH]; intros inserted table Hnd Hfresh; simpl.
  - by rewrite Z.add_0_r, app_nil_r.
  - unfold execute. simpl in *. destruct (values_row r) as [row|] eqn:Hv; simpl.
    + unfold keys in Hnd. rewrite fmap_cons in Hnd.
      apply NoDup_cons in Hnd as [Hrow Hnd].
      apply Forall_cons in Hfresh as [Hnew Hfresh].
      apply conflicts_fresh in Hnew. rewrite Hnew. simpl.
      change (commit (mkConn table (table ++ [row]))) with (connect (table ++ [row])).
      rewrite IH.
      * rewrite <- app_assoc. simpl. f_equal. unfold omap. lia.
      * exact Hnd.
      * apply Forall_forall. intros x Hx Hin.
        rewrite Forall_forall in Hfresh.
        rewrite keys_app in Hin. apply elem_of_app in Hin as [Hin|Hin].
        -- by apply (Hfresh x Hx).
        -- unfold keys in Hin. simpl in Hin. apply list_elem_of_singleton in Hin.
           apply Hrow. rewrite <- Hin. by apply list_elem_of_fmap_2.
    + change (rollback (connect table)) with (connect table). by apply IH.
Qed.

Lemma insert_batch_falls_back (c : Conn) (batch : list ParsedRecord) :
  Exists (fun r => values_row r = None) batch ->
  insert_batch c batch = insert_each batch 0 (rollback c).
Proof.
  intros Hbad. unfold insert_batch.
  destruct batch as [|r rest]; [by apply Exists_nil in Hbad|].
  remember (r :: rest) as batch eqn:Hbatch.
  assert (Hne : batch <> []) by (subst; discriminate).
  pose proof (execute_values_spec batch c Hne) as Hbulk.
  destruct (execute_values batch 1000 c) as [[n|] c1].
  - destruct Hbulk as (Hvalid & _). exfalso.
    apply Exists_exists in Hbad as (x & Hx & Hnone).
    rewrite Forall_forall in Hvalid. specialize (Hvalid x Hx).
    rewrite Hnone in Hvalid. by destruct Hvalid.
  - destruct Hbulk as (Hcomm & _). unfold rollback. by rewrite Hcomm.
Qed.

(** *** The loop of [import_csv_file] *)

Lemma yielded_cons (bounds : Bounds) (row : Row) (rest : list Row) :
  yielded bounds (row :: rest) =
    match row_outcome row bounds with
    | Yielded r => r :: yielded bounds rest
    | _ => yielded bounds rest
    end.
Proof.
  unfold yielded. simpl. unfold yield_of at 1.
  by destruct (row_outcome row bounds).
Qed.

Lemma count_skipped_nonneg (bounds : Bounds) (rows : list Row) :
  0 <= count_skipped bounds rows.
Proof.
  induction rows as [|row rest IH]; simpl; [lia|].
  destruct (row_outcome row bounds); lia.
Qed.

Lemma rows_partition (bounds : Bounds) (rows : list Row) :
  Forall (no_crash bounds) rows ->
  Z.of_nat (length rows) =
    count_skipped bounds rows + Z.of_nat (length (yielded bounds rows)).
Proof.
  induction 1 as [|row rest Hrow _ IH]; [reflexivity|].
  rewrite yielded_cons. simpl.
  destruct (row_outcome row bounds) as [r| |e] eqn:Hout; simpl; try lia.
  by destruct (Hrow e).
Qed.

Lemma import_rows_spec (bounds : Bounds) (batch_size : Z) (rows : list Row)
    (st : Loop) (c : Conn) :
  clean c ->
  match import_rows bounds batch_size rows st c with
  | (res, c') =>
      clean c' /\
      extends (batch st ++ yielded bounds rows) (committed c) (committed c') /\
      match res with
      | Return st' =>
          Forall (no_crash bounds) rows /\
          processed st' = processed st + Z.of_nat (length rows) /\
          skipped st' = skipped st + count_skipped bounds rows /\
          imported st <= imported st' /\
          imported st' + Z.of_nat (length (batch st')) <=
            imported st + Z.of_nat (length (batch st))
              + Z.of_nat (length (yielded bounds rows)) /\
          batch st' ⊆ batch st ++ yielded bounds rows
      | Raise e => Exists (fun row => row_outcome row bounds = Crashed e) rows
      end
  end.
Proof.
  revert st c. induction rows as [|row rest IH]; intros st c Hclean.
  - simpl. split; [exact Hclean|]. split; [apply extends_refl|].
    split; [constructor|]. unfold yielded. simpl. rewrite app_nil_r.
    repeat split; try lia. done.
  - cbn [import_rows count_skipped]. rewrite !yielded_cons.
    destruct (row_outcome row bounds) as [r| |e] eqn:Hout.
    + destruct (Z.of_nat (length (batch st ++ [r])) >=? batch_size).
      * pose proof (insert_batch_spec c (batch st ++ [r]) Hclean) as Hins.
        destruct (insert_batch c (batch st ++ [r])) as [n c1].
        destruct Hins as (Hclean1 & Hext1 & _ & Hn).
        specialize (IH (mkLoop (imported st + n) (skipped st) (processed st + 1) []) c1 Hclean1).
        destruct (import_rows bounds batch_size rest _ c1) as [res c2].
        destruct IH as (Hclean2 & Hext2 & Hres). cbn [batch imported skipped processed] in *.
        split; [exact Hclean2|].
        split; [eapply extends_trans; [| |exact Hext1|exact Hext2]; list_incl|].
        destruct res as [st'|e]; [|by right].
        destruct Hres as (Hnc & Hp & Hs & Hi & Hb & Hsub).
        rewrite length_app in Hn. cbn [length] in *.
        split; [constructor; [intros e; congruence|exact Hnc]|].
        repeat split; try lia. intros x Hx; apply Hsub in Hx; revert x Hx; list_incl.
      * specialize (IH (mkLoop (imported st) (skipped st) (processed st + 1) (batch st ++ [r])) c Hclean).
        destruct (import_rows bounds batch_size rest _ c) as [res c2].
        destruct IH as (Hclean2 & Hext2 & Hres). cbn [batch imported skipped processed] in *.
        split; [exact Hclean2|].
        split; [eapply extends_trans; [| |apply (extends_refl [])|exact Hext2]; list_incl|].
        destruct res as [st'|e]; [|by right].
        destruct Hres as (Hnc & Hp & Hs & Hi & Hb & Hsub).
        rewrite length_app in Hb. cbn [length] in *.
        split; [constructor; [intros e; congruence|exact Hnc]|].
        repeat split; try lia. intros x Hx; apply Hsub in Hx; revert x Hx; list_incl.
    + specialize (IH (mkLoop (imported st) (skipped st + 1) (processed st + 1) (batch st)) c Hclean).
      destruct (import_rows bounds batch_size rest _ c) as [res c2].
      destruct IH as (Hclean2 & Hext2 & Hres). cbn [batch imported skipped processed] in *.
      split; [exact Hclean2|]. split; [exact Hext2|].
      destruct res as [st'|e]; [|by right].
      destruct Hres as (Hnc & Hp & Hs & Hi & Hb & Hsub). cbn [length].
      split; [constructor; [intros e; congruence|exact Hnc]|].
      repeat split; try lia. exact Hsub.
    + split; [exact Hclean|]. split; [apply extends_refl|]. by left.
Qed.

(** Running the loop again on a table that holds at least the keys the first
    run left, for records that all have a key: the same rows are skipped,
    the same batches are sent, and every one of them inserts nothing. *)
Lemma import_rows_rerun (bounds : Bounds) (batch_size : Z) (rows : list Row)
    (st : Loop) (c : Conn) :
  clean c ->
  Forall keyed (batch st ++ yielded bounds rows) ->
  forall (c2 : Conn) (i2 : Z),
    clean c2 ->
    (forall k, k ∈ keys (committed (snd (import_rows bounds batch_size rows st c))) ->
               k ∈ keys (committed c2)) ->
    import_rows bounds batch_size rows
        (mkLoop i2 (skipped st) (processed st) (batch st)) c2 =
      (match fst (import_rows bounds batch_size rows st c) with
       | Return st1 => Return (mkLoop i2 (skipped st1) (processed st1) (batch st1))
       | Raise e => Raise e
       end, c2).
Proof.
  revert st c.
  induction rows as [|row rest IH]; intros st c Hclean Hkeyed c2 i2 Hclean2 Hkeys.
  - reflexivity.
  - cbn [import_rows] in *. cbn [imported skipped processed batch] in *.
    rewrite yielded_cons in Hkeyed.
    destruct (row_outcome row bounds) as [r| |e] eqn:Hout.
    + replace (batch st ++ r :: yielded bounds rest)
        with ((batch st ++ [r]) ++ yielded bounds rest) in Hkeyed
        by (by rewrite <- app_assoc).
      pose proof Hkeyed as Hboth. apply Forall_app in Hboth as [Hkbatch Hkrest].
      destruct (Z.of_nat (length (batch st ++ [r])) >=? batch_size).
      * pose proof (insert_batch_spec c (batch st ++ [r]) Hclean) as Hins.
        destruct (insert_batch c (batch st ++ [r])) as [n c1].
        destruct Hins as (Hclean1 & _ & Hcov1 & _).
        set (st1 := mkLoop (imported st + n) (skipped st) (processed st + 1) []) in *.
        pose proof (import_rows_spec bounds batch_size rest st1 c1 Hclean1) as Hrest.
        destruct (import_rows bounds batch_size rest st1 c1) as [res cf] eqn:Hrun.
        destruct Hrest as (_ & Hext & _). cbn [fst snd] in *.
        rewrite insert_batch_covered; [|exact Hclean2|exact Hkbatch|].
        -- rewrite Z.add_0_r.
           specialize (IH st1 c1 Hclean1 Hkrest c2 i2 Hclean2).
           rewrite Hrun in IH. cbn [fst snd] in IH. by apply IH.
        -- eapply Forall_impl; [exact Hcov1|]. intros x Hx.
           eapply covered_mono; [|exact Hx]. intros k Hk.
           apply Hkeys. by eapply extends_keys.
      * by apply (IH (mkLoop (imported st) (skipped st) (processed st + 1) (batch st ++ [r]))).
    + by apply (IH (mkLoop (imported st) (skipped st + 1) (processed st + 1) (batch st))).
    + reflexivity.
Qed.

(** *** Rows and bounds *)

Lemma is_in_bounds_inclusive (lat lon : float) (bounds : Bounds) :
  is_in_bounds lat lon bounds = true <->
  PrimFloat.leb (min_lat bounds) lat = true /\
  PrimFloat.leb lat (max_lat bounds) = true /\
  PrimFloat.leb (min_lon bounds) lon = true /\
  PrimFloat.leb lon (max_lon bounds) = true.
Proof. unfold is_in_bounds. rewrite !andb_true_iff. tauto. Qed.

Lemma row_outcome_centroid (row : Row) (bounds : Bounds) :
  match centroid row with
  | Return (lat, lon) =>
      if is_in_bounds lat lon bounds
      then forall e, row_outcome row bounds = Crashed e -> False
      else row_outcome row bounds = Skipped
  | Raise e =>
      match e with
      | KeyError | ValueError => row_outcome row bounds = Skipped
      | _ => row_outcome row bounds = Crashed e
      end
  end.
Proof.
  unfold row_outcome, read_row, centroid.
  destruct (getitem row "latitude") as [lat_s|e1] eqn:H1; cbn [bindE].
  2:{ unfold getitem in H1. destruct (row !! "latitude"); by inversion H1. }
  destruct (float_of lat_s) as [lat|e2] eqn:H2; cbn [bindE].
  2:{ unfold float_of in H2. destruct lat_s as [s|]; [destruct (py_float s)|]; by inversion H2. }
  destruct (getitem row "longitude") as [lon_s|e3] eqn:H3; cbn [bindE].
  2:{ unfold getitem in H3. destruct (row !! "longitude"); by inversion H3. }
  destruct (float_of lon_s) as [lon|e4] eqn:H4; cbn [bindE].
  2:{ unfold float_of in H4. destruct lon_s as [s|]; [destruct (py_float s)|]; by inversion H4. }
  destruct (is_in_bounds lat lon bounds); cbn [negb]; [|reflexivity].
  intros e. unfold optional_float, getitem, float_of.
  repeat (case_match; cbn [bindE negb] in *; simplify_eq; try done).
Qed.

Lemma yielded_row_in_bounds (row : Row) (bounds : Bounds) (r : ParsedRecord) :
  row_outcome row bounds = Yielded r ->
  exists lat lon,
    centroid row = Return (lat, lon) /\ is_in_bounds lat lon bounds = true.
Proof.
  intros Hout. pose proof (row_outcome_centroid row bounds) as H.
  destruct (centroid row) as [[lat lon]|e].
  - exists lat, lon. split; [reflexivity|].
    destruct (is_in_bounds lat lon bounds); [reflexivity|congruence].
  - destruct e; congruence.
Qed.

(** *** The claims about the loader *)

Lemma omap_values_row_length (records : list ParsedRecord) :
  Forall (fun r => is_Some (values_row r)) records ->
  length (omap values_row records) = length records.
Proof.
  induction 1 as [|r rest [row Hr] _ IH]; [reflexivity|].
  simpl. rewrite Hr. simpl. unfold omap in *. by rewrite IH.
Qed.

(** C1, as the code has it.  A batch with one record the database rejects
    among [N] records it accepts, whose keys are new to the table and
    pairwise distinct: the set-based statement raises and is rolled back,
    the fallback inserts and commits the [N] records one by one, and
    [insert_batch] returns [N]; the rejected record is rolled back and is not
    stored.  The count of skipped rows is not part of what [insert_batch]
    returns. *)
Theorem insert_batch_one_malformed (table : list StoredRow)
    (before after : list ParsedRecord) (bad : ParsedRecord) :
  values_row bad = None ->
  Forall (fun r => is_Some (values_row r)) (before ++ after) ->
  NoDup (keys (omap values_row (before ++ after))) ->
  Forall (fun row => unique_key row ∉ keys table) (omap values_row (before ++ after)) ->
  fst (execute_values (before ++ bad :: after) 1000 (connect table)) = None /\
  rollback (snd (execute_values (before ++ bad :: after) 1000 (connect table)))
    = connect table /\
  insert_batch (connect table) (before ++ bad :: after) =
    (Z.of_nat (length (before ++ after)),
     connect (table ++ omap values_row (before ++ after))).
Proof.
  intros Hbad Hvalid Hnd Hfresh.
  assert (Hex : Exists (fun r => values_row r = None) (before ++ bad :: after)).
  { apply Exists_app. right. by left. }
  assert (Homap : omap values_row (before ++ bad :: after)
                  = omap values_row (before ++ after)).
  { rewrite !omap_app. simpl. by rewrite Hbad. }
  assert (Hne : before ++ bad :: after <> []) by (by destruct before).
  pose proof (execute_values_spec (before ++ bad :: after) (connect table) Hne) as Hbulk.
  destruct (execute_values (before ++ bad :: after) 1000 (connect table))
    as [[n|] c1] eqn:Hrun.
  { destruct Hbulk as (Hall & _). exfalso.
    apply Exists_exists in Hex as (x & Hx & Hnone).
    rewrite Forall_forall in Hall. specialize (Hall x Hx).
    rewrite Hnone in Hall. by destruct Hall. }
  destruct Hbulk as (Hcomm & _). simpl in Hcomm.
  split; [reflexivity|]. split; [unfold rollback, connect; simpl; by rewrite Hcomm|].
  rewrite insert_batch_falls_back by exact Hex.
  change (rollback (connect table)) with (connect table).
  rewrite insert_each_fresh; rewrite Homap; try assumption.
  by rewrite omap_values_row_length.
Qed.

(** C3, as the code has it.  For a shard that is read to its end,
    [import_csv_file] returns; [skipped] is the number of rows the filter
    dropped (no number, outside the bounds, no geometry), [imported] is at
    most the number of records sent to the database, and so
    [imported + skipped] is at most the number of rows processed. *)
Theorem import_csv_file_accounting (table : list StoredRow) (shard : Shard)
    (bounds : Bounds) (batch_size : Z) :
  shard_end shard = None ->
  Forall (no_crash bounds) (shard_rows shard) ->
  exists n_imported n_skipped c',
    import_csv_file (connect table) shard bounds batch_size
      = (Return (n_imported, n_skipped), c') /\
    n_skipped = count_skipped bounds (shard_rows shard) /\
    0 <= n_imported <= Z.of_nat (length (yielded bounds (shard_rows shard))) /\
    n_imported + n_skipped <= Z.of_nat (length (shard_rows shard)).
Proof.
  intros Hend Hnc. unfold import_csv_file. rewrite Hend.
  pose proof (import_rows_spec bounds batch_size (shard_rows shard)
                (mkLoop 0 0 0 []) (connect table) eq_refl) as Hloop.
  pose proof (rows_partition bounds (shard_rows shard) Hnc) as Hpart.
  destruct (import_rows bounds batch_size (shard_rows shard) _ (connect table))
    as [[st|e] c1].
  - destruct Hloop as (Hclean & _ & _ & _ & Hs & Hi & Hb & _).
    cbn [imported skipped processed batch length] in *.
    destruct (batch st) as [|r rest] eqn:Hbatch.
    + eexists _, _, _. split; [reflexivity|]. cbn [length] in *. lia.
    + pose proof (insert_batch_spec c1 (r :: rest) Hclean) as Hins.
      destruct (insert_batch c1 (r :: rest)) as [n c2].
      destruct Hins as (_ & _ & _ & Hn).
      eexists _, _, _. split; [reflexivity|]. lia.
  - destruct Hloop as (_ & _ & Hcrash). exfalso.
    apply Exists_exists in Hcrash as (row & Hrow & Hout).
    rewrite Forall_forall in Hnc. by apply (Hnc row Hrow e).
Qed.

(** C4, as the code has it.  When every record of the shard that the
    database accepts gives a row with a key under the uniqueness constraint
    (no column of the constraint is NULL), loading the shard a second time,
    on the table the first load left, changes nothing in the table and
    counts no inserted row: every record the first load stored, or found
    stored, conflicts now.  A row without key conflicts with nothing. *)
Theorem second_load_inserts_nothing (table : list StoredRow) (shard : Shard)
    (bounds : Bounds) (batch_size : Z) :
  Forall (fun r => forall row, values_row r = Some row -> is_Some (unique_key row))
    (yielded bounds (shard_rows shard)) ->
  let first := import_csv_file (connect table) shard bounds batch_size in
  import_csv_file (snd first) shard bounds batch_size =
    (match fst first with
     | Return (_, n_skipped) => Return (0, n_skipped)
     | Raise e => Raise e
     end, snd first).
Proof.
  intros Hkeyed. cbv zeta. unfold import_csv_file.
  pose proof (import_rows_spec bounds batch_size (shard_rows shard)
                (mkLoop 0 0 0 []) (connect table) eq_refl) as Hloop.
  pose proof (import_rows_rerun bounds batch_size (shard_rows shard)
                (mkLoop 0 0 0 []) (connect table) eq_refl Hkeyed) as Hrerun.
  destruct (import_rows bounds batch_size (shard_rows shard) _ (connect table))
    as [res c1] eqn:Hrun.
  destruct Hloop as (Hclean1 & _ & Hres). cbn [fst snd] in Hrerun.
  cbn [imported skipped processed batch] in Hrerun.
  destruct res as [st|e]; cbn [fst snd].
  2:{ by rewrite (Hrerun c1 0 Hclean1). }
  destruct (shard_end shard) as [e|]; cbn [fst snd].
  { by rewrite (Hrerun c1 0 Hclean1). }
  destruct (batch st) as [|r rest] eqn:Hbatch; cbn [fst snd].
  { by rewrite (Hrerun c1 0 Hclean1). }
  pose proof (insert_batch_spec c1 (r :: rest) Hclean1) as Hins.
  destruct (insert_batch c1 (r :: rest)) as [n c2].
  destruct Hins as (Hclean2 & Hext & Hcov & _). cbn [fst snd].
  rewrite (Hrerun c2 0 Hclean2).
  - cbn [batch imported skipped].
    rewrite insert_batch_covered; [by rewrite Z.add_0_r|exact Hclean2| |exact Hcov].
    destruct Hres as (_ & _ & _ & _ & _ & Hsub). cbn [batch app] in Hsub.
    apply Forall_forall. intros x Hx row Hrow. rewrite Forall_forall in Hkeyed.
    exact (Hkeyed x (Hsub x Hx) row Hrow).
  - intros k Hk. by eapply extends_keys.
Qed.

(** C5.  A row yields a record only when its latitude and longitude parse
    and lie within the bounds, each of the four comparisons inclusive; a row
    whose centroid parses and lies outside is counted as skipped; and the
    rows the load adds to the table are records yielded by rows of the shard. *)
Theorem stream_yields_within_bounds (table : list StoredRow) (shard : Shard)
    (bounds : Bounds) (batch_size : Z) :
  (forall row r,
     row_outcome row bounds = Yielded r ->
     exists lat lon,
       centroid row = Return (lat, lon) /\
       PrimFloat.leb (min_lat bounds) lat = true /\
       PrimFloat.leb lat (max_lat bounds) = true /\
       PrimFloat.leb (min_lon bounds) lon = true /\
       PrimFloat.leb lon (max_lon bounds) = true) /\
  (forall row lat lon,
     centroid row = Return (lat, lon) ->
     is_in_bounds lat lon bounds = false ->
     row_outcome row bounds = Skipped /\
     count_skipped bounds [row] = 1) /\
  extends (yielded bounds (shard_rows shard)) table
    (committed (snd (import_csv_file (connect table) shard bounds batch_size))) /\
  (forall r, r ∈ yielded bounds (shard_rows shard) ->
     exists row, row ∈ shard_rows shard /\ row_outcome row bounds = Yielded r).
Proof.
  split; [|split; [|split]].
  - intros row r Hout.
    destruct (yielded_row_in_bounds row bounds r Hout) as (lat & lon & Hc & Hin).
    exists lat, lon. split; [exact Hc|]. by apply is_in_bounds_inclusive.
  - intros row lat lon Hc Hout.
    pose proof (row_outcome_centroid row bounds) as H.
    rewrite Hc, Hout in H. simpl. by rewrite H.
  - unfold import_csv_file.
    pose proof (import_rows_spec bounds batch_size (shard_rows shard)
                  (mkLoop 0 0 0 []) (connect table) eq_refl) as Hloop.
    destruct (import_rows bounds batch_size (shard_rows shard) _ (connect table))
      as [[st|e] c1]; destruct Hloop as (Hclean & Hext & Hres);
      cbn [batch app committed connect] in *; [|exact Hext].
    destruct (shard_end shard); [exact Hext|].
    destruct (batch st) as [|r rest] eqn:Hbatch; [exact Hext|].
    pose proof (insert_batch_spec c1 (r :: rest) Hclean) as Hins.
    destruct (insert_batch c1 (r :: rest)) as [n c2].
    destruct Hins as (_ & Hext2 & _). cbn [snd].
    destruct Hres as (_ & _ & _ & _ & _ & Hsub).
    eapply extends_trans; [| |exact Hext|exact Hext2]; [done|exact Hsub].
  - intros r Hr. unfold yielded in Hr.
    apply list_elem_of_omap in Hr as (row & Hrow & Hy).
    exists row. split; [exact Hrow|]. unfold yield_of in Hy.
    destruct (row_outcome row bounds); congruence.
Qed.

Lemma import_files_app (fs : FileSystem) (bounds : Bounds) (l1 l2 : list Path)
    (ti ts : Z) (c : Conn) :
  import_files fs bounds (l1 ++ l2) ti ts c =
    match import_files fs bounds l1 ti ts c with
    | (Return (ti', ts'), c') => import_files fs bounds l2 ti' ts' c'
    | (Raise e, c') => (Raise e, c')
    end.
Proof.
  revert ti ts c. induction l1 as [|p rest IH]; intros ti ts c; simpl; [reflexivity|].
  destruct (fs !! p) as [content|]; [|apply IH].
  destruct (Z.of_nat (length content) =? 0); [apply IH|].
  destruct (import_csv_file c (read_shard content) bounds 5000) as [[[i k]|e] c'].
  - apply IH.
  - reflexivity.
Qed.

(** C2, as the code has it.  When the stream of a shard breaks, the
    exception leaves [import_csv_file], and the loop of [main], which has no
    handler, ends with it: the files after that shard are not imported, and
    the connection is left as the damaged shard left it. *)
Theorem corrupt_shard_aborts_import (fs : FileSystem) (bounds : Bounds)
    (done_files rest : list Path) (filepath : Path) (content : list Byte.byte)
    (e : exn) (ti ts ti' ts' : Z) (c c1 : Conn) :
  import_files fs bounds done_files ti ts c = (Return (ti', ts'), c1) ->
  fs !! filepath = Some content ->
  content <> [] ->
  shard_end (read_shard content) = Some e ->
  exists e' c2,
    import_csv_file c1 (read_shard content) bounds 5000 = (Raise e', c2) /\
    import_files fs bounds (done_files ++ filepath :: rest) ti ts c = (Raise e', c2).
Proof.
  intros Hdone Hfile Hne Hend.
  rewrite import_files_app, Hdone. cbn [import_files]. rewrite Hfile.
  destruct content as [|b content']; [congruence|]. cbn [length].
  replace (Z.of_nat (S (length content')) =? 0) with false
    by (symmetry; apply Z.eqb_neq; lia).
  unfold import_csv_file at 1 2. rewrite Hend.
  destruct (import_rows bounds 5000 _ _ c1) as [[st|e'] c2].
  - exists e, c2. split; reflexivity.
  - exists e', c2. split; reflexivity.
Qed.

(** *** Further properties of [insert_batch] *)

Lemma insert_do_nothing_app (l1 l2 table : list StoredRow) :
  insert_do_nothing (l1 ++ l2) table =
    let '(t1, n1) := insert_do_nothing l1 table in
    let '(t2, n2) := insert_do_nothing l2 t1 in
    (t2, n1 + n2).
Proof.
  revert table. induction l1 as [|row rest IH]; intros table; simpl.
  - by destruct (insert_do_nothing l2 table).
  - destruct (conflicts table row); [apply IH|].
    rewrite IH. destruct (insert_do_nothing rest (table ++ [row])) as [t1 n1].
    destruct (insert_do_nothing l2 t1) as [t2 n2]. f_equal. lia.
Qed.

Lemma insert_do_nothing_count (rows table : list StoredRow) :
  0 <= snd (insert_do_nothing rows table) <= Z.of_nat (length rows) /\
  Z.of_nat (length (fst (insert_do_nothing rows table))) =
    Z.of_nat (length table) + snd (insert_do_nothing rows table).
Proof.
  destruct (insert_do_nothing_spec rows table) as (added & -> & Hsub & _).
  apply sublist_length in Hsub. simpl. rewrite length_app. lia.
Qed.

Lemma mapM_values_omap (records : list ParsedRecord) (rows : list StoredRow) :
  mapM values_row records = Some rows -> omap values_row records = rows.
Proof.
  intros H. apply mapM_values_rows in H.
  induction H as [|r row rs rows' Hr _ IH]; [reflexivity|].
  simpl. rewrite Hr. by rewrite <- IH.
Qed.

Lemma execute_accepted (records : list ParsedRecord) (c : Conn) :
  Forall (fun r => is_Some (values_row r)) records ->
  execute records c =
    (Some (snd (insert_do_nothing (omap values_row records) (session c))),
     mkConn (committed c) (fst (insert_do_nothing (omap values_row records) (session c)))).
Proof.
  intros Hvalid. unfold execute.
  destruct (mapM_is_Some_2 values_row records Hvalid) as [rows Hrows].
  rewrite Hrows. apply mapM_values_omap in Hrows. rewrite Hrows.
  by destruct (insert_do_nothing rows (session c)).
Qed.

Lemma execute_pages_accepted (pages : list (list ParsedRecord)) (rowcount : Z) (c : Conn) :
  Forall (fun r => is_Some (values_row r)) (concat pages) ->
  exists n,
    execute_pages pages rowcount c =
      (Some n, mkConn (committed c)
                 (fst (insert_do_nothing (omap values_row (concat pages)) (session c)))) /\
    (pages = [] -> n = rowcount) /\
    (pages <> [] ->
       0 <= n <= snd (insert_do_nothing (omap values_row (concat pages)) (session c))) /\
    (forall page, pages = [page] ->
       n = snd (insert_do_nothing (omap values_row page) (session c))).
Proof.
  revert rowcount c. induction pages as [|page rest IH]; intros rowcount c Hvalid.
  - exists rowcount. simpl. rewrite conn_eta. repeat split; try done.
  - simpl in Hvalid. apply Forall_app in Hvalid as [Hpage Hrest].
    cbn [execute_pages concat]. rewrite execute_accepted by exact Hpage.
    rewrite omap_app, insert_do_nothing_app.
    pose proof (insert_do_nothing_count (omap values_row page) (session c)) as [Hn1 _].
    destruct (insert_do_nothing (omap values_row page) (session c)) as [t1 n1] eqn:Hfirst.
    cbn [fst snd] in *.
    destruct (IH n1 (mkConn (committed c) t1) Hrest) as (n & -> & Hnil & Hcons & _).
    cbn [committed session] in *.
    pose proof (insert_do_nothing_count (omap values_row (concat rest)) t1) as [Hn2 _].
    destruct (insert_do_nothing (omap values_row (concat rest)) t1) as [t2 n2].
    cbn [fst snd] in *. exists n. split; [reflexivity|].
    split; [discriminate|]. split.
    + intros _. destruct rest as [|p rest']; [rewrite (Hnil eq_refl); lia|].
      assert (Hne : p :: rest' <> []) by discriminate.
      specialize (Hcons Hne). lia.
    + intros page' Heq. injection Heq as Hp Hr. subst page' rest.
      rewrite Hfirst. by apply Hnil.
Qed.

Lemma paginate_one_page (page_size : nat) (seq : list ParsedRecord) :
  seq <> [] -> (length seq <= page_size)%nat -> paginate page_size seq = [seq].
Proof.
  intros Hne Hlen. unfold paginate. destruct seq as [|x rest]; [congruence|].
  change (paginate_fuel (length (x :: rest)) page_size (x :: rest))
    with (take page_size (x :: rest)
            :: paginate_fuel (length rest) page_size (drop page_size (x :: rest))).
  rewrite take_ge, drop_ge by exact Hlen. by destruct (length rest).
Qed.

Lemma insert_each_exact (batch : list ParsedRecord) (inserted : Z) (table : list StoredRow) :
  insert_each batch inserted (connect table) =
    (inserted + snd (insert_do_nothing (omap values_row batch) table),
     connect (fst (insert_do_nothing (omap values_row batch) table))).
Proof.
  revert inserted table. induction batch as [|r rest IH]; intros inserted table; simpl.
  - by rewrite Z.add_0_r.
  - unfold execute. simpl. destruct (values_row r) as [row|]; simpl.
    + destruct (conflicts table row); simpl.
      * change (commit (mkConn table table)) with (connect table).
        rewrite IH. by rewrite Z.add_0_r.
      * change (commit (mkConn table (table ++ [row]))) with (connect (table ++ [row])).
        rewrite IH. unfold omap.
        destruct (insert_do_nothing _ (table ++ [row])) as [t' n].
        simpl. f_equal. lia.
    + change (rollback (connect table)) with (connect table). apply IH.
Qed.

Lemma insert_batch_nonempty (c : Conn) (batch : list ParsedRecord) :
  batch <> [] ->
  insert_batch c batch =
    match execute_values batch 1000 c with
    | (Some inserted, c') => (inserted, commit c')
    | (None, c') => insert_each batch 0 (rollback c')
    end.
Proof. by destruct batch. Qed.

Lemma insert_batch_exact (table : list StoredRow) (batch : list ParsedRecord) :
  let accepted := insert_do_nothing (omap values_row batch) table in
  snd (insert_batch (connect table) batch) = connect (fst accepted) /\
  0 <= fst (insert_batch (connect table) batch) <= snd accepted /\
  Z.of_nat (length (fst accepted)) = Z.of_nat (length table) + snd accepted /\
  (Exists (fun r => values_row r = None) batch \/ (length batch <= 1000)%nat ->
   fst (insert_batch (connect table) batch) = snd accepted).
Proof.
  cbv zeta.
  pose proof (insert_do_nothing_count (omap values_row batch) table) as [Hcount Hlen].
  destruct (values_row_dec batch) as [Hvalid|Hbad].
  - destruct batch as [|r rest]; [simpl in *; repeat split; try done; lia|].
    remember (r :: rest) as batch eqn:Hbatch.
    assert (Hne : batch <> []) by (subst; discriminate).
    rewrite insert_batch_nonempty by exact Hne.
    unfold execute_values.
    destruct (execute_pages_accepted (paginate 1000 batch) (-1) (connect table))
      as (n & Hrun & _ & Hcons & Hone).
    { rewrite paginate_concat by lia. exact Hvalid. }
    rewrite paginate_concat in * by lia. rewrite Hrun. cbn [fst snd connect session].
    specialize (Hcons (paginate_nonempty 1000 batch Hne)).
    split; [reflexivity|]. split; [exact Hcons|]. split; [exact Hlen|].
    intros [Hex|Hsmall].
    + exfalso. apply Exists_exists in Hex as (x & Hx & Hnone).
      rewrite Forall_forall in Hvalid. specialize (Hvalid x Hx).
      rewrite Hnone in Hvalid. by destruct Hvalid.
    + apply (Hone batch). by apply paginate_one_page.
  - rewrite insert_batch_falls_back by exact Hbad.
    change (rollback (connect table)) with (connect table).
    rewrite insert_each_exact. cbn [fst snd]. rewrite Z.add_0_l.
    repeat split; try done; lia.
Qed.

(** X4.  Whatever the batch, [insert_batch] leaves the table as one
    [INSERT ... ON CONFLICT DO NOTHING] of the records the database accepts
    would leave it: a record rejected on its geometry or on a value a column
    refuses costs only itself, and a row without key is added whatever the
    table holds.  The count returned never exceeds the number of rows added;
    it is that number when the fallback ran and when the batch fits one page
    of 1000. *)
Theorem insert_batch_stores_accepted (table : list StoredRow) (batch : list ParsedRecord) :
  let accepted := insert_do_nothing (omap values_row batch) table in
  snd (insert_batch (connect table) batch) = connect (fst accepted) /\
  0 <= fst (insert_batch (connect table) batch) <= snd accepted /\
  Z.of_nat (length (fst accepted)) = Z.of_nat (length table) + snd accepted /\
  (Exists (fun r => values_row r = None) batch \/ (length batch <= 1000)%nat ->
   fst (insert_batch (connect table) batch) = snd accepted).
Proof. apply insert_batch_exact. Qed.

(** X5.  [insert_batch] never removes or rewrites a stored row: the table it
    leaves starts with the table it found, and every row it adds comes from
    a record of the batch, with [source] google, no [osm_id], [osm_type] way,
    and the plus code of the record as [external_id]. *)
Theorem insert_batch_only_appends (table : list StoredRow) (batch : list ParsedRecord) :
  exists added,
    snd (insert_batch (connect table) batch) = connect (table ++ added) /\
    Forall (fun row =>
              exists r g,
                r ∈ batch /\ ST_GeomFromText (geometry r) = Some g /\
                row = mkStoredRow None "way" (ST_Multi g) "google"
                        (plus_code r) (confidence r) (area r)) added.
Proof.
  pose proof (insert_batch_spec (connect table) batch eq_refl) as Hspec.
  destruct (insert_batch (connect table) batch) as [n c'].
  destruct Hspec as (Hclean & (added & Hadded & Hfrom) & _).
  exists added. cbn [snd committed connect] in *. split.
  - destruct c' as [t s]. unfold clean in Hclean. simpl in *. by subst.
  - eapply Forall_impl; [exact Hfrom|]. intros row (r & Hr & Hv).
    unfold values_row in Hv. destruct (ST_GeomFromText (geometry r)) as [g|] eqn:Hg;
      [|discriminate].
    cbv zeta in Hv. destruct (fits_columns _); [|discriminate].
    injection Hv as <-. by exists r, g.
Qed.

Lemma execute_pages_fresh (fuel page_size : nat) (seq : list ParsedRecord)
    (rowcount : Z) (t0 table : list StoredRow) :
  (0 < page_size)%nat -> (length seq <= fuel)%nat ->
  Forall (fun r => is_Some (values_row r)) seq ->
  NoDup (keys (omap values_row seq)) ->
  Forall (fun row => unique_key row ∉ keys table) (omap values_row seq) ->
  execute_pages (paginate_fuel fuel page_size seq) rowcount (mkConn t0 table) =
    (Some (match seq with
           | [] => rowcount
           | _ => Z.of_nat ((length seq - 1) mod page_size + 1)
           end),
     mkConn t0 (table ++ omap values_row seq)).
Proof.
  intros Hpos. revert seq rowcount table.
  induction fuel as [|fuel IH]; intros seq rowcount table Hlen Hvalid Hnd Hfresh.
  - destruct seq; [|simpl in Hlen; lia]. simpl. by rewrite app_nil_r.
  - destruct seq as [|x rest]; [simpl; by rewrite app_nil_r|].
    remember (x :: rest) as l eqn:Hl.
    assert (Hpag : paginate_fuel (S fuel) page_size l
                   = take page_size l :: paginate_fuel fuel page_size (drop page_size l))
      by (by rewrite Hl).
    rewrite Hpag. cbn [execute_pages].
    replace (match l with
             | [] => rowcount
             | _ :: _ => Z.of_nat ((length l - 1) mod page_size + 1)
             end) with (Z.of_nat ((length l - 1) mod page_size + 1)) by (by rewrite Hl).
    assert (Hl1 : (1 <= length l)%nat) by (rewrite Hl; simpl; lia).
    clear Hpag Hl x rest.
    rewrite <- (take_drop page_size l) in Hvalid, Hnd, Hfresh.
    apply Forall_app in Hvalid as [Hv1 Hv2].
    rewrite omap_app in Hnd, Hfresh. rewrite keys_app in Hnd.
    apply NoDup_app in Hnd as (Hnd1 & Hdisj & Hnd2).
    apply Forall_app in Hfresh as [Hf1 Hf2].
    rewrite execute_accepted by exact Hv1. cbn [session committed].
    rewrite insert_do_nothing_fresh by assumption. cbn [fst snd].
    rewrite IH.
    + f_equal.
      * assert (Hlen1 : length (omap values_row (take page_size l))
                        = length (take page_size l))
          by (by apply omap_values_row_length).
        rewrite Hlen1, length_take.
        destruct (drop page_size l) as [|y rest'] eqn:Hdrop.
        -- apply (f_equal length) in Hdrop. rewrite length_drop in Hdrop. simpl in Hdrop.
           rewrite Nat.min_r by lia.
           rewrite Nat.mod_small by lia. f_equal. lia.
        -- apply (f_equal length) in Hdrop. rewrite length_drop in Hdrop.
           simpl in Hdrop. f_equal. f_equal.
           replace (length l - 1)%nat
             with (length rest' + 1 * page_size)%nat by lia.
           rewrite Nat.Div0.mod_add. simpl. by rewrite Nat.sub_0_r.
      * rewrite <- app_assoc, <- omap_app. by rewrite take_drop.
    + rewrite length_drop. lia.
    + exact Hv2.
    + exact Hnd2.
    + apply Forall_forall. intros row Hrow Hin.
      rewrite keys_app in Hin. apply elem_of_app in Hin as [Hin|Hin].
      * rewrite Forall_forall in Hf2. by apply (Hf2 row Hrow).
      * apply (Hdisj (unique_key row)); [exact Hin|].
        by apply list_elem_of_fmap_2.
Qed.

(** X7.  The count of the set-based insert is the count of its last page.  For a
    batch of records that are all accepted, new to the table and pairwise
    distinct, every record is stored, and [insert_batch] returns the size of
    the last page of 1000: the size of the batch only when it has at most
    1000 records. *)
Theorem insert_batch_counts_last_page (table : list StoredRow) (batch : list ParsedRecord) :
  batch <> [] ->
  Forall (fun r => is_Some (values_row r)) batch ->
  NoDup (keys (omap values_row batch)) ->
  Forall (fun row => unique_key row ∉ keys table) (omap values_row batch) ->
  insert_batch (connect table) batch =
    (Z.of_nat ((length batch - 1) mod 1000 + 1),
     connect (table ++ omap values_row batch)) /\
  length (omap values_row batch) = length batch.
Proof.
  intros Hne Hvalid Hnd Hfresh.
  split; [|by apply omap_values_row_length].
  rewrite insert_batch_nonempty by exact Hne.
  unfold execute_values, paginate, connect.
  rewrite execute_pages_fresh; try assumption; try lia.
  by destruct batch.
Qed.

(** *** Further properties of [import_csv_file] *)

Lemma import_rows_all_skipped (bounds : Bounds) (batch_size : Z) (rows : list Row)
    (st : Loop) (c : Conn) :
  Forall (fun row => row_outcome row bounds = Skipped) rows ->
  import_rows bounds batch_size rows st c =
    (Return (mkLoop (imported st) (skipped st + Z.of_nat (length rows))
               (processed st + Z.of_nat (length rows)) (batch st)), c).
Proof.
  intros Hall. revert st. induction Hall as [|row rest Hrow _ IH]; intros st.
  - simpl. rewrite !Z.add_0_r. by destruct st.
  - cbn [import_rows]. rewrite Hrow, IH. cbn [imported skipped processed batch length].
    do 3 f_equal; lia.
Qed.

(** X8.  A shard none of whose rows passes the filter (all outside the bounds,
    unparsable, or without geometry) never reaches the database: every row is
    reported as skipped, nothing as imported, and the connection, an open
    transaction included, is left as it was. *)
Theorem import_csv_file_all_skipped (c : Conn) (rows : list Row) (bounds : Bounds)
    (batch_size : Z) :
  Forall (fun row => row_outcome row bounds = Skipped) rows ->
  import_csv_file c (mkShard rows None) bounds batch_size =
    (Return (0, Z.of_nat (length rows)), c).
Proof.
  intros Hall. unfold import_csv_file. cbn [shard_rows shard_end].
  by rewrite import_rows_all_skipped.
Qed.

Lemma import_rows_buffers (bounds : Bounds) (batch_size : Z) (rows : list Row)
    (st : Loop) (c : Conn) :
  Z.of_nat (length (batch st) + length (yielded bounds rows)) < batch_size ->
  exists res,
    import_rows bounds batch_size rows st c = (res, c) /\
    match res with
    | Return st' => Forall (no_crash bounds) rows
    | Raise e => Exists (fun row => row_outcome row bounds = Crashed e) rows
    end.
Proof.
  revert st. induction rows as [|row rest IH]; intros st Hsmall.
  - exists (Return st). split; [reflexivity|constructor].
  - cbn [import_rows]. rewrite yielded_cons in Hsmall.
    destruct (row_outcome row bounds) as [r| |e] eqn:Hout.
    + cbn [length] in Hsmall.
      replace (Z.of_nat (length (batch st ++ [r])) >=? batch_size) with false
        by (symmetry; rewrite Z.geb_leb; apply Z.leb_gt; rewrite length_app; simpl; lia).
      destruct (IH (mkLoop (imported st) (skipped st) (processed st + 1) (batch st ++ [r])))
        as (res & -> & Hres).
      { cbn [batch]. rewrite length_app. simpl. lia. }
      exists res. split; [reflexivity|]. destruct res; [|by right].
      constructor; [intros e; congruence|exact Hres].
    + destruct (IH (mkLoop (imported st) (skipped st + 1) (processed st + 1) (batch st)))
        as (res & -> & Hres); [exact Hsmall|].
      exists res. split; [reflexivity|]. destruct res; [|by right].
      constructor; [intros e; congruence|exact Hres].
    + exists (Raise e). split; [reflexivity|]. by left.
Qed.

(** X9.  The buffered records are lost when a shard fails.  If the stream breaks,
    or a short row raises [TypeError], while fewer than [batch_size] records
    have been buffered, [import_csv_file] raises and not one row of the shard
    is stored. *)
Theorem failed_shard_stores_nothing (c : Conn) (shard : Shard) (bounds : Bounds)
    (batch_size : Z) :
  Z.of_nat (length (yielded bounds (shard_rows shard))) < batch_size ->
  is_Some (shard_end shard) \/ ~ Forall (no_crash bounds) (shard_rows shard) ->
  exists e, import_csv_file c shard bounds batch_size = (Raise e, c).
Proof.
  intros Hsmall Hfails. unfold import_csv_file.
  destruct (import_rows_buffers bounds batch_size (shard_rows shard)
              (mkLoop 0 0 0 []) c Hsmall) as (res & -> & Hres).
  destruct res as [st|e]; [|by exists e].
  destruct Hfails as [[e ->]|Hcrash]; [by exists e|contradiction].
Qed.

(** *** Batching *)

Lemma paginate_fuel_cons (fuel page_size : nat) (x : ParsedRecord) (rest : list ParsedRecord) :
  paginate_fuel (S fuel) page_size (x :: rest) =
    take page_size (x :: rest) :: paginate_fuel fuel page_size (drop page_size (x :: rest)).
Proof. reflexivity. Qed.

Lemma paginate_fuel_enough (f1 f2 page_size : nat) (seq : list ParsedRecord) :
  (0 < page_size)%nat -> (length seq <= f1)%nat -> (length seq <= f2)%nat ->
  paginate_fuel f1 page_size seq = paginate_fuel f2 page_size seq.
Proof.
  intros Hpos. revert f2 seq.
  induction f1 as [|f1 IH]; intros f2 seq H1 H2.
  - destruct seq; [by destruct f2|simpl in H1; lia].
  - destruct seq as [|x rest]; [by destruct f2|].
    destruct f2 as [|f2]; [simpl in H2; lia|].
    rewrite !paginate_fuel_cons. f_equal.
    apply IH; rewrite length_drop; simpl in *; lia.
Qed.

Lemma paginate_full_page (page_size : nat) (page rest : list ParsedRecord) :
  (0 < page_size)%nat -> length page = page_size ->
  paginate page_size (page ++ rest) = page :: paginate page_size rest.
Proof.
  intros Hpos Hlen. unfold paginate.
  destruct page as [|x page']; [simpl in Hlen; lia|].
  rewrite length_app. cbn [length app Nat.add].
  rewrite paginate_fuel_cons.
  change (x :: page' ++ rest) with ((x :: page') ++ rest).
  rewrite take_app_length', drop_app_length' by (symmetry; exact Hlen).
  f_equal. apply paginate_fuel_enough; lia.
Qed.

(** The pages are the sequence cut at every [page_size] elements: all pages
    but the last are full, and the last is not empty. *)
Lemma paginate_sizes (page_size : nat) (seq : list ParsedRecord) :
  (0 < page_size)%nat ->
  forall (i : nat) (page : list ParsedRecord),
    paginate page_size seq !! i = Some page ->
    (0 < length page <= page_size)%nat /\
    (S i < length (paginate page_size seq) -> length page = page_size)%nat.
Proof.
  intros Hpos. unfold paginate.
  remember (length seq) as fuel eqn:Hfuel.
  assert (Hle : (length seq <= fuel)%nat) by lia. clear Hfuel.
  revert seq Hle. induction fuel as [|fuel IH]; intros seq Hle i page Hi.
  - destruct seq; [by destruct i|simpl in Hle; lia].
  - destruct seq as [|x rest]; [by destruct i|].
    rewrite paginate_fuel_cons in *.
    assert (Hrest : (length (drop page_size (x :: rest)) <= fuel)%nat)
      by (rewrite length_drop; simpl in *; lia).
    destruct i as [|i]; cbn [lookup list_lookup length] in *.
    + injection Hi as <-. rewrite length_take. cbn [length]. split; [lia|].
      intros Hmore.
      destruct (drop page_size (x :: rest)) as [|y rest'] eqn:Hdrop;
        [destruct fuel; simpl in Hmore; lia|].
      apply (f_equal length) in Hdrop. rewrite length_drop in Hdrop.
      simpl in Hdrop. lia.
    + destruct (IH _ Hrest i page Hi) as [H1 H2]. split; [exact H1|].
      intros Hmore. apply H2. lia.
Qed.

Lemma import_rows_feed (bounds : Bounds) (batch_size : Z) (rows : list Row)
    (st : Loop) (c : Conn) :
  Forall (no_crash bounds) rows ->
  import_rows bounds batch_size rows st c =
    let '(n_imported, buffer, c') :=
      feed batch_size (yielded bounds rows) (imported st) (batch st) c in
    (Return (mkLoop n_imported (skipped st + count_skipped bounds rows)
               (processed st + Z.of_nat (length rows)) buffer), c').
Proof.
  intros Hnc. revert st c. induction Hnc as [|row rest Hrow _ IH]; intros st c.
  - simpl. rewrite !Z.add_0_r. by destruct st.
  - cbn [import_rows count_skipped]. rewrite yielded_cons.
    destruct (row_outcome row bounds) as [r| |e] eqn:Hout.
    + cbn [feed].
      destruct (Z.of_nat (length (batch st ++ [r])) >=? batch_size).
      * destruct (insert_batch c (batch st ++ [r])) as [n c1].
        rewrite IH. cbn [imported skipped processed batch].
        destruct (feed batch_size (yielded bounds rest) (imported st + n) [] c1)
          as [[i b] c2].
        do 3 f_equal. cbn [length]. lia.
      * rewrite IH. cbn [imported skipped processed batch].
        destruct (feed batch_size (yielded bounds rest) (imported st) (batch st ++ [r]) c)
          as [[i b] c2].
        do 3 f_equal. cbn [length]. lia.
    + rewrite IH. cbn [imported skipped processed batch].
      destruct (feed batch_size (yielded bounds rest) (imported st) (batch st) c)
        as [[i b] c2].
      do 3 f_equal; cbn [length]; lia.
    + by destruct (Hrow e).
Qed.

Lemma feed_pages (batch_size : Z) (records : list ParsedRecord) (n_imported : Z)
    (buffer : list ParsedRecord) (c : Conn) :
  1 <= batch_size ->
  (length buffer < Z.to_nat batch_size)%nat ->
  (let '(i', b', c') := feed batch_size records n_imported buffer c in
   let '(n, c'') := insert_batch c' b' in
   (i' + n, c'')) =
  (let '(m, cf) := load_batches (paginate (Z.to_nat batch_size) (buffer ++ records)) c in
   (n_imported + m, cf)).
Proof.
  intros Hbs. revert n_imported buffer c.
  induction records as [|r rest IH]; intros n_imported buffer c Hlen.
  - cbn [feed]. rewrite app_nil_r.
    destruct buffer as [|x buffer'].
    + simpl. by rewrite Z.add_0_r.
    + rewrite paginate_one_page by (try discriminate; lia).
      cbn [load_batches]. destruct (insert_batch c (x :: buffer')) as [n c1].
      by rewrite Z.add_0_r.
  - cbn [feed].
    replace (buffer ++ r :: rest) with ((buffer ++ [r]) ++ rest)
      by (by rewrite <- app_assoc).
    destruct (Z.of_nat (length (buffer ++ [r])) >=? batch_size) eqn:Hfull.
    + rewrite Z.geb_leb in Hfull. apply Z.leb_le in Hfull.
      rewrite length_app in Hfull. cbn [length] in Hfull.
      rewrite paginate_full_page by (try rewrite length_app; simpl; lia).
      cbn [load_batches]. destruct (insert_batch c (buffer ++ [r])) as [n c1].
      specialize (IH (n_imported + n) [] c1 ltac:(simpl; lia)).
      destruct (feed batch_size rest (n_imported + n) [] c1) as [[i' b'] c'].
      destruct (insert_batch c' b') as [k c''].
      rewrite IH. cbn [app].
      destruct (load_batches (paginate (Z.to_nat batch_size) rest) c1) as [m cf].
      f_equal. lia.
    + rewrite Z.geb_leb in Hfull. apply Z.leb_gt in Hfull.
      apply IH. lia.
Qed.

(** X10.  The load of a shard is the load of its batches.  For a batch size of at
    least 1 and a shard read to its end, [import_csv_file] sends the records
    the filter yields in batches of exactly [batch_size], a shorter last
    batch closing the shard; the imported count is the sum of the counts of
    the batches, and rows that are skipped have no effect on the batches. *)
Theorem import_csv_file_in_batches (c : Conn) (shard : Shard) (bounds : Bounds)
    (batch_size : Z) :
  1 <= batch_size ->
  shard_end shard = None ->
  Forall (no_crash bounds) (shard_rows shard) ->
  let batches := paginate (Z.to_nat batch_size) (yielded bounds (shard_rows shard)) in
  import_csv_file c shard bounds batch_size =
    (Return (fst (load_batches batches c), count_skipped bounds (shard_rows shard)),
     snd (load_batches batches c)) /\
  concat batches = yielded bounds (shard_rows shard) /\
  forall (i : nat) (b : list ParsedRecord),
    batches !! i = Some b ->
    (0 < length b <= Z.to_nat batch_size)%nat /\
    (S i < length batches -> length b = Z.to_nat batch_size)%nat.
Proof.
  intros Hbs Hend Hnc. cbv zeta.
  split; [|split; [apply paginate_concat; lia|apply paginate_sizes; lia]].
  unfold import_csv_file. rewrite Hend, import_rows_feed by exact Hnc.
  cbn [imported skipped processed batch].
  pose proof (feed_pages batch_size (yielded bounds (shard_rows shard)) 0 [] c Hbs
                ltac:(simpl; lia)) as Hfeed.
  cbn [app] in Hfeed.
  destruct (feed batch_size (yielded bounds (shard_rows shard)) 0 [] c) as [[i b] c'].
  cbn [imported skipped batch].
  destruct (load_batches _ c) as [m cf]. cbn [fst snd].
  destruct b as [|x b'].
  - simpl in Hfeed. injection Hfeed as Hi ->. rewrite Z.add_0_l.
    replace i with m by lia. reflexivity.
  - destruct (insert_batch c' (x :: b')) as [n c''].
    injection Hfeed as Hi ->. rewrite Z.add_0_l.
    replace (i + n) with m by lia. reflexivity.
Qed.

(** *** The comparison of floats and the bounds *)

Lemma SFcompare_refl (x : spec_float) :
  SFcompare x x = match x with S754_nan => None | _ => Some Eq end.
Proof.
  destruct x as [s|s| |s m e]; simpl; try reflexivity.
  - by destruct s.
  - rewrite Z.compare_refl.
    change (PosDef.Pos.compare_cont Eq m m) with (Pos.compare m m).
    rewrite Pos.compare_refl. by destruct s.
Qed.

Lemma SFleb_trans (x y z : spec_float) :
  SFleb x y = true -> SFleb y z = true -> SFleb x z = true.
Proof.
  unfold SFleb.
  destruct x as [s1|s1| |s1 m1 e1], y as [s2|s2| |s2 m2 e2], z as [s3|s3| |s3 m3 e3];
    simpl; try discriminate; try reflexivity;
    try (destruct s1, s2, s3; simpl; try discriminate; try reflexivity; fail);
    try (destruct s1, s2; simpl; try discriminate; try reflexivity; fail);
    try (destruct s1, s3; simpl; try discriminate; try reflexivity; fail);
    try (destruct s2, s3; simpl; try discriminate; try reflexivity; fail).
  all: change (PosDef.Pos.compare_cont Eq) with Pos.compare.
  all: destruct s1, s2, s3; simpl; try discriminate; try reflexivity.
  all: destruct (Z.compare_spec e1 e2), (Z.compare_spec e2 e3), (Z.compare_spec e1 e3);
       try discriminate; try reflexivity; try lia.
  all: destruct (Pos.compare_spec m1 m2), (Pos.compare_spec m2 m3), (Pos.compare_spec m1 m3);
       simpl; try discriminate; try reflexivity; try lia.
Qed.

Lemma float_leb_trans (x y z : float) :
  PrimFloat.leb x y = true -> PrimFloat.leb y z = true -> PrimFloat.leb x z = true.
Proof. rewrite !FloatAxioms.leb_spec. apply SFleb_trans. Qed.

Lemma float_leb_numbers (x y : float) :
  PrimFloat.leb x y = true ->
  PrimFloat.is_nan x = false /\ PrimFloat.is_nan y = false /\
  PrimFloat.leb x x = true /\ PrimFloat.leb y y = true.
Proof.
  unfold PrimFloat.is_nan. rewrite !FloatAxioms.leb_spec, !FloatAxioms.eqb_spec.
  unfold SFleb, SFeqb. rewrite !SFcompare_refl.
  destruct (Prim2SF x), (Prim2SF y); simpl; try discriminate; repeat split; reflexivity.
Qed.

Lemma float_nan_leb (x y : float) :
  PrimFloat.is_nan x = true \/ PrimFloat.is_nan y = true -> PrimFloat.leb x y = false.
Proof.
  intros Hnan. destruct (PrimFloat.leb x y) eqn:Hle; [|reflexivity].
  destruct (float_leb_numbers x y Hle) as (Hx & Hy & _). destruct Hnan; congruence.
Qed.

Lemma in_bounds_nan_free (lat lon : float) (bounds : Bounds) :
  is_in_bounds lat lon bounds = true ->
  PrimFloat.is_nan lat = false /\ PrimFloat.is_nan lon = false.
Proof.
  intros Hin. apply is_in_bounds_inclusive in Hin as (H1 & _ & H3 & _).
  destruct (float_leb_numbers _ _ H1) as (_ & Hlat & _).
  destruct (float_leb_numbers _ _ H3) as (_ & Hlon & _). by split.
Qed.

(** X11.  Only numbers inside a box that is not inverted are within the bounds: a
    NaN coordinate is never within any bounds, and bounds with a NaN or with
    a minimum above the maximum admit no point. *)
Theorem in_bounds_needs_numbers (lat lon : float) (bounds : Bounds) :
  is_in_bounds lat lon bounds = true ->
  PrimFloat.is_nan lat = false /\ PrimFloat.is_nan lon = false /\
  PrimFloat.leb (min_lat bounds) (max_lat bounds) = true /\
  PrimFloat.leb (min_lon bounds) (max_lon bounds) = true.
Proof.
  intros Hin. apply is_in_bounds_inclusive in Hin as (H1 & H2 & H3 & H4).
  destruct (float_leb_numbers _ _ H1) as (_ & Hlat & _).
  destruct (float_leb_numbers _ _ H3) as (_ & Hlon & _).
  repeat split; try assumption; eapply float_leb_trans; eassumption.
Qed.

(** X12.  The bounds are closed on their four edges: a box whose minima are at
    most its maxima contains its four corners. *)
Theorem bounds_contain_their_corners (bounds : Bounds) :
  PrimFloat.leb (min_lat bounds) (max_lat bounds) = true ->
  PrimFloat.leb (min_lon bounds) (max_lon bounds) = true ->
  is_in_bounds (min_lat bounds) (min_lon bounds) bounds = true /\
  is_in_bounds (min_lat bounds) (max_lon bounds) bounds = true /\
  is_in_bounds (max_lat bounds) (min_lon bounds) bounds = true /\
  is_in_bounds (max_lat bounds) (max_lon bounds) bounds = true.
Proof.
  intros Hlat Hlon.
  destruct (float_leb_numbers _ _ Hlat) as (_ & _ & Ha & Hb).
  destruct (float_leb_numbers _ _ Hlon) as (_ & _ & Hc & Hd).
  repeat split; apply is_in_bounds_inclusive; repeat split; assumption.
Qed.

(** X13.  A row whose latitude or longitude parses to NaN (the text nan is a float
    for Python) is dropped and counted as skipped, whatever the bounds. *)
Theorem nan_row_is_skipped (row : Row) (bounds : Bounds) (lat lon : float) :
  centroid row = Return (lat, lon) ->
  PrimFloat.is_nan lat = true \/ PrimFloat.is_nan lon = true ->
  row_outcome row bounds = Skipped.
Proof.
  intros Hc Hnan. pose proof (row_outcome_centroid row bounds) as H.
  rewrite Hc in H.
  destruct (is_in_bounds lat lon bounds) eqn:Hin; [|exact H].
  apply in_bounds_nan_free in Hin. destruct Hin, Hnan; congruence.
Qed.

End Loader.

(** ** Scenarios *)

(** Stand-ins for what lies outside the script, to run it on concrete
    shards: a [float] that knows a few numerals, a database that accepts the
    texts starting with POLYGON and the numbers a [REAL] column takes, a
    unique index on [external_id] (a row whose [external_id] is NULL has no
    key), a reader that delivers one good row for bytes starting with [1f]
    and a damaged stream otherwise, and a covering that is always one cell. *)
Module Scenario.

Definition float_of_text (s : string) : option float :=
  if String.eqb s "0.5" then Some 0.5%float
  else if String.eqb s "1.25" then Some 1.25%float
  else if String.eqb s "32.5" then Some 32.5%float
  else if String.eqb s "50.0" then Some 50%float
  else None.

Definition geom_of_text (s : string) : option string :=
  if String.prefix "POLYGON" s then Some s else None.

(** [REAL] takes the numbers up to its largest, NaN and the infinities. *)
Definition fits_real (x : option float) : bool :=
  match x with
  | None => true
  | Some v =>
      PrimFloat.is_nan v || PrimFloat.is_infinity v
      || PrimFloat.leb (PrimFloat.abs v) 0x1.fffffep+127%float
  end.

Definition fits_columns (row : StoredRow string) : bool :=
  fits_real (confidence_col string row) && fits_real (area_m2 string row).

Definition key_of (row : StoredRow string) : option string := external_id string row.

(** Uganda in [countries.json]: lat [-1.5, 4.2], lon [29.5, 35.0]. *)
Definition uga : Bounds := mkBounds (-1.5)%float 0x1.0cccccccccccdp+2%float 29.5%float 35%float.

(** A box that is a single point. *)
Definition point_box : Bounds := mkBounds 0.5%float 0.5%float 32.5%float 32.5%float.

Definition csv_row (lat lon geom code : string) : gmap string (option string) :=
  list_to_map
    [("latitude", Some lat); ("longitude", Some lon); ("area_in_meters", Some "");
     ("confidence", Some ""); ("geometry", Some geom); ("full_plus_code", Some code)].

Definition row_a := csv_row "0.5" "32.5" "POLYGON((32.5 0.5, 32.6 0.5, 32.6 0.6, 32.5 0.5))" "6GGJ+A".
Definition row_b := csv_row "1.25" "32.5" "POLYGON((32.5 1.2, 32.6 1.2, 32.6 1.3, 32.5 1.2))" "6GGJ+B".
Definition row_malformed := csv_row "0.5" "32.5" "LINESTRING(" "6GGJ+C".
Definition row_outside := csv_row "50.0" "32.5" "POLYGON((32.5 50, 32.6 50, 32.6 51, 32.5 50))" "9GGJ+D".

Definition record_of (geom code : string) : ParsedRecord :=
  mkParsedRecord geom (Some code) None None.

Definition rec_a := record_of "POLYGON((32.5 0.5, 32.6 0.5, 32.6 0.6, 32.5 0.5))" "6GGJ+A".
Definition rec_b := record_of "POLYGON((32.5 1.2, 32.6 1.2, 32.6 1.3, 32.5 1.2))" "6GGJ+B".
Definition rec_malformed := record_of "LINESTRING(" "6GGJ+C".

(** The line of [row_a] short by its last field: [csv.DictReader] fills the
    missing [full_plus_code] with [None]. *)
Definition row_without_code : gmap string (option string) :=
  <["full_plus_code" := None]> row_a.

Definition rec_without_code : ParsedRecord :=
  mkParsedRecord "POLYGON((32.5 0.5, 32.6 0.5, 32.6 0.6, 32.5 0.5))" None None None.

(** A record whose area no [REAL] column takes. *)
Definition rec_huge_area : ParsedRecord :=
  mkParsedRecord "POLYGON((32.5 1.2, 32.6 1.2, 32.6 1.3, 32.5 1.2))" (Some "6GGJ+H")
    None (Some 0x1p+1000%float).

Definition stored (r : ParsedRecord) : StoredRow string :=
  mkStoredRow string None "way" (geometry r) "google" (plus_code r) (confidence r) (area r).

Definition reader (content : list Byte.byte) : Shard :=
  match content with
  | Byte.x1f :: _ => mkShard [row_a] None
  | _ => mkShard [] (Some GzipError)
  end.

Definition load (c : Conn string) (shard : Shard) : Exc (Z * Z) * Conn string :=
  @import_csv_file float_of_text string geom_of_text (fun g => g) fits_columns string _
    key_of c shard uga 5000.

Definition load_files (fs : FileSystem) (files : list Path) (c : Conn string)
    : Exc (Z * Z) * Conn string :=
  @import_files float_of_text string geom_of_text (fun g => g) fits_columns string _
    key_of reader fs uga files 0 0 c.

Definition scratch : FileSystem :=
  <["/tmp/google_buildings/uga/17d_buildings.csv.gz" := [Byte.x00; Byte.x01]]>
    (<["/tmp/google_buildings/uga/199_buildings.csv.gz" := [Byte.x1f; Byte.x8b]]> ∅).

Definition one_cell (lo hi : float * float) (min_level max_level max_cells : Z)
    : Exc (list Z) :=
  Return [1769].

Definition token_of (cell : Z) : string := "17d".

Definition broken_after_two_bytes (url : string) : Response :=
  GetReturns 200 (BodyChunk [Byte.x1f; Byte.x8b] BodyBroken).

Definition fresh_download (url : string) : Response :=
  GetReturns 200 (BodyChunk [Byte.x1f; Byte.x8b; Byte.x08] BodyEnd).

End Scenario.

(** C1, counterexample.  A shard of three rows within the bounds, the second
    with a geometry the database rejects: the load reports 2 imported and 0
    skipped, not 1 skipped. *)
Lemma one_malformed_is_not_counted_as_skipped :
  Scenario.load (connect string [])
      (mkShard [Scenario.row_a; Scenario.row_malformed; Scenario.row_b] None) =
    (Return (2, 0), connect string [Scenario.stored Scenario.rec_a; Scenario.stored Scenario.rec_b]).
Proof. vm_compute. reflexivity. Qed.

(** C3, counterexample.  A shard of two rows, one outside the bounds and one
    whose insert fails: 2 rows are processed, and the report is 0 imported
    and 1 skipped. *)
Lemma failed_row_is_in_neither_count :
  fst (Scenario.load (connect string [])
         (mkShard [Scenario.row_outside; Scenario.row_malformed] None)) = Return (0, 1) /\
  length [Scenario.row_outside; Scenario.row_malformed] = 2%nat.
Proof. split; [vm_compute|]; reflexivity. Qed.

(** C4, counterexample.  A shard of one line that is short by its last
    field: the row is stored with [external_id] NULL, it has no key under
    the unique index, and the second load of the shard inserts it again. *)
Lemma short_line_is_inserted_again :
  Scenario.load (connect string []) (mkShard [Scenario.row_without_code] None) =
    (Return (1, 0), connect string [Scenario.stored Scenario.rec_without_code]) /\
  Scenario.load (connect string [Scenario.stored Scenario.rec_without_code])
      (mkShard [Scenario.row_without_code] None) =
    (Return (1, 0),
     connect string [Scenario.stored Scenario.rec_without_code;
                     Scenario.stored Scenario.rec_without_code]).
Proof. split; vm_compute; reflexivity. Qed.

(** C2, counterexample.  Two scratch files, the first damaged, the second
    good: the import of the two raises and stores nothing, although the
    second file alone imports one row. *)
Lemma damaged_shard_stops_the_run :
  Scenario.load_files Scenario.scratch
      ["/tmp/google_buildings/uga/17d_buildings.csv.gz";
       "/tmp/google_buildings/uga/199_buildings.csv.gz"] (connect string []) =
    (Raise GzipError, connect string []) /\
  Scenario.load_files Scenario.scratch
      ["/tmp/google_buildings/uga/199_buildings.csv.gz"] (connect string []) =
    (Return (1, 0), connect string [Scenario.stored Scenario.rec_a]).
Proof. split; vm_compute; reflexivity. Qed.

(** C6, counterexample.  On a box that is a single point the selector
    returns: the one cell of the covering when the library is there, the
    empty list when it is not. *)
Lemma degenerate_box_is_accepted :
  degenerate Scenario.point_box = true /\
  compute_s2_cells_for_bounds Z Scenario.one_cell Scenario.token_of true
    Scenario.point_box 4 = Return ["17d"] /\
  compute_s2_cells_for_bounds Z Scenario.one_cell Scenario.token_of false
    Scenario.point_box 4 = Return [].
Proof. repeat split; vm_compute; reflexivity. Qed.

(** C7, counterexample.  Without the library the selector returns the empty
    list for the bounds of Uganda. *)
Lemma selector_without_library_returns_empty :
  compute_s2_cells_for_bounds Z Scenario.one_cell Scenario.token_of false
    Scenario.uga 4 = Return [].
Proof. reflexivity. Qed.

(** *** The theorems at concrete inputs *)

Lemma download_file_already_present_witness :
  download_file Scenario.fresh_download
      "https://storage.googleapis.com/open-buildings-data/v3/polygons_s2_level_4_gzip/199_buildings.csv.gz"
      "/tmp/google_buildings/uga/199_buildings.csv.gz"
      (mkWorld Scenario.scratch []) =
    (true, mkWorld Scenario.scratch []).
Proof.
  apply (download_file_already_present _ _ _ _ [Byte.x1f; Byte.x8b]).
  - vm_compute. reflexivity.
  - simpl. lia.
Defined.

Lemma partial_download_is_kept_witness :
  exists w1,
    download_file Scenario.broken_after_two_bytes "https://host/1b_buildings.csv.gz"
        "/tmp/google_buildings/uga/1b_buildings.csv.gz" (mkWorld Scenario.scratch []) =
      (false, w1) /\
    files w1 !! "/tmp/google_buildings/uga/1b_buildings.csv.gz" =
      Some [Byte.x1f; Byte.x8b] /\
    fetch_again [Scenario.fresh_download; Scenario.fresh_download]
        "https://host/1b_buildings.csv.gz"
        "/tmp/google_buildings/uga/1b_buildings.csv.gz" w1 =
      ([true; true], w1) /\
    requests (snd (fetch_again [Scenario.fresh_download; Scenario.fresh_download]
                     "https://host/1b_buildings.csv.gz"
                     "/tmp/google_buildings/uga/1b_buildings.csv.gz" w1)) =
      ["https://host/1b_buildings.csv.gz"].
Proof.
  apply (partial_download_is_kept Scenario.broken_after_two_bytes
           "https://host/1b_buildings.csv.gz"
           "/tmp/google_buildings/uga/1b_buildings.csv.gz"
           (mkWorld Scenario.scratch []) 200
           (BodyChunk [Byte.x1f; Byte.x8b] BodyBroken)
           [Scenario.fresh_download; Scenario.fresh_download]).
  - vm_compute. reflexivity.
  - reflexivity.
  - lia.
  - reflexivity.
  - reflexivity.
  - simpl. discriminate.
Defined.

Lemma insert_batch_one_malformed_witness :
  insert_batch string Scenario.geom_of_text (fun g => g) Scenario.fits_columns string Scenario.key_of
      (connect string []) [Scenario.rec_a; Scenario.rec_malformed; Scenario.rec_b] =
    (2, connect string [Scenario.stored Scenario.rec_a; Scenario.stored Scenario.rec_b]).
Proof.
  apply (insert_batch_one_malformed string Scenario.geom_of_text (fun g => g)
           Scenario.fits_columns string Scenario.key_of []
           [Scenario.rec_a] [Scenario.rec_b] Scenario.rec_malformed).
  - reflexivity.
  - repeat constructor; eexists; reflexivity.
  - vm_compute. apply NoDup_cons. split; [|apply NoDup_singleton].
    intros H. apply list_elem_of_singleton in H. discriminate.
  - repeat constructor; apply not_elem_of_nil.
Defined.

Lemma import_csv_file_accounting_witness :
  exists n_imported n_skipped c',
    Scenario.load (connect string [])
        (mkShard [Scenario.row_a; Scenario.row_outside; Scenario.row_b] None) =
      (Return (n_imported, n_skipped), c') /\
    n_skipped = 1 /\
    0 <= n_imported <= 2 /\
    n_imported + n_skipped <= 3.
Proof.
  apply (import_csv_file_accounting Scenario.float_of_text string Scenario.geom_of_text
           (fun g => g) Scenario.fits_columns string Scenario.key_of []
           (mkShard [Scenario.row_a; Scenario.row_outside; Scenario.row_b] None)
           Scenario.uga 5000).
  - reflexivity.
  - repeat constructor; intros e; vm_compute; discriminate.
Defined.

Lemma corrupt_shard_aborts_import_witness :
  exists e' c2,
    Scenario.load (connect string [Scenario.stored Scenario.rec_a])
        (Scenario.reader [Byte.x00; Byte.x01]) = (Raise e', c2) /\
    Scenario.load_files Scenario.scratch
        (["/tmp/google_buildings/uga/199_buildings.csv.gz"]
           ++ "/tmp/google_buildings/uga/17d_buildings.csv.gz"
           :: ["/tmp/google_buildings/uga/199_buildings.csv.gz"])
        (connect string []) = (Raise e', c2).
Proof.
  apply (corrupt_shard_aborts_import Scenario.float_of_text string Scenario.geom_of_text
           (fun g => g) Scenario.fits_columns string Scenario.key_of Scenario.reader Scenario.scratch
           Scenario.uga ["/tmp/google_buildings/uga/199_buildings.csv.gz"]
           ["/tmp/google_buildings/uga/199_buildings.csv.gz"]
           "/tmp/google_buildings/uga/17d_buildings.csv.gz"
           [Byte.x00; Byte.x01] GzipError 0 0 1 0).
  - vm_compute. reflexivity.
  - vm_compute. reflexivity.
  - discriminate.
  - reflexivity.
Defined.

Lemma second_load_inserts_nothing_witness :
  Scenario.load
      (snd (Scenario.load (connect string [])
              (mkShard [Scenario.row_a; Scenario.row_outside; Scenario.row_b] None)))
      (mkShard [Scenario.row_a; Scenario.row_outside; Scenario.row_b] None) =
    (match fst (Scenario.load (connect string [])
                  (mkShard [Scenario.row_a; Scenario.row_outside; Scenario.row_b] None)) with
     | Return (_, n_skipped) => Return (0, n_skipped)
     | Raise e => Raise e
     end,
     snd (Scenario.load (connect string [])
            (mkShard [Scenario.row_a; Scenario.row_outside; Scenario.row_b] None))).
Proof.
  apply (second_load_inserts_nothing Scenario.float_of_text string Scenario.geom_of_text
           (fun g => g) Scenario.fits_columns string Scenario.key_of []
           (mkShard [Scenario.row_a; Scenario.row_outside; Scenario.row_b] None)
           Scenario.uga 5000).
  repeat constructor; intros row Hrow; vm_compute in Hrow; injection Hrow as <-;
    eexists; reflexivity.
Defined.

(** ** IngestionOrchestrator: [main] *)

(** [str.lower] on the ASCII letters. *)
Definition lower_ascii (c : ascii) : ascii :=
  let n := nat_of_ascii c in
  if ((65 <=? n) && (n <=? 90))%nat then ascii_of_nat (n + 32) else c.

Fixpoint lower (s : string) : string :=
  match s with
  | EmptyString => EmptyString
  | String c rest => String (lower_ascii c) (lower rest)
  end.

Definition BASE_URL : string :=
  "https://storage.googleapis.com/open-buildings-data/v3/polygons_s2_level_4_gzip".

(** [f"{cell}_buildings.csv.gz"], and the URL and the scratch path made of it. *)
Definition shard_filename (cell : string) : string := cell +:+ "_buildings.csv.gz".
Definition shard_url (cell : string) : string := BASE_URL +:+ "/" +:+ shard_filename cell.
Definition shard_dest (work_dir : Path) (cell : string) : Path :=
  work_dir +:+ "/" +:+ shard_filename cell.

(** [Path(tempfile.gettempdir()) / 'google_buildings' / args.country.lower()] *)
Definition work_dir_of (tmpdir : string) (country : string) : Path :=
  tmpdir +:+ "/" +:+ "google_buildings" +:+ "/" +:+ lower country.

(** The download loop of [main]: [downloaded_files] and the world after it. *)
Fixpoint download_cells (net : string -> Response) (work_dir : Path)
    (cells : list string) (w : World) : list Path * World :=
  match cells with
  | [] => ([], w)
  | cell :: rest =>
      let '(ok, w1) := download_file net (shard_url cell) (shard_dest work_dir cell) w in
      let '(downloaded, w2) := download_cells net work_dir rest w1 in
      (if ok then shard_dest work_dir cell :: downloaded else downloaded, w2)
  end.

(** The clean-up loop: [if filepath.exists(): filepath.unlink()]. *)
Fixpoint cleanup (downloaded_files : list Path) (fs : FileSystem) : FileSystem :=
  match downloaded_files with
  | [] => fs
  | filepath :: rest => cleanup rest (delete filepath fs)
  end.

(** The arguments [parse_args] returns. *)
Record Args : Type := mkArgs {
  country : string;
  dry_run : bool;
  list_countries : bool;
  keep_files : bool
}.

(** How a run of [main] ends: it returns, it calls [sys.exit], or an
    exception leaves it. *)
Inductive Exit : Type :=
  | Returned
  | SysExit (code : Z)
  | Uncaught (e : exn).

Section Orchestrator.

Variable py_float : string -> option float.
Variable Geom : Type.
Variable ST_GeomFromText : string -> option Geom.
Variable ST_Multi : Geom -> Geom.
Variable fits_columns : StoredRow Geom -> bool.
Variable Key : Type.
Context `{EqDecision Key}.
Variable unique_key : StoredRow Geom -> option Key.
Variable read_shard : list Byte.byte -> Shard.
Variable CellId : Type.
Variable get_covering : float * float -> float * float -> Z -> Z -> Z -> Exc (list CellId).
Variable to_token : CellId -> string.

(** [apply_migration] changes the schema through SQL that is not in the
    script; what it does to the connection, and the exception it raises when
    the database refuses the statement, are given. *)
Variable apply_migration : Conn Geom -> option exn * Conn Geom.

(** [tempfile.gettempdir()] *)
Variable tmpdir : string.

(** [main], from the parsed arguments, the loaded [countries.json], the
    network, the scratch directory and the connection [psycopg2.connect]
    returns; the connection of the result is the connection as the run
    leaves it, before it is closed.  Printing is left out. *)
Definition main (args : Args) (has_s2sphere : bool)
    (country_configs : gmap string CountryEntry) (net : string -> Response)
    (w : World) (c : Conn Geom) : Exit * World * Conn Geom :=
  if list_countries args then (Returned, w, c)
  else
    match get_country_config CellId get_covering to_token has_s2sphere
            country_configs (country args) with
    | Raise ValueError => (SysExit 1, w, c)
    | Raise e => (Uncaught e, w, c)
    | Return country_config =>
        match (if dry_run args then (None, c) else apply_migration c) with
        | (Some e, c1) => (Uncaught e, w, c1)
        | (None, c1) =>
            let work_dir := work_dir_of tmpdir (country args) in
            let '(downloaded_files, w1) :=
              download_cells net work_dir (s2_cells country_config) w in
            if dry_run args then (Returned, w1, c1)
            else
              match import_files py_float Geom ST_GeomFromText ST_Multi fits_columns Key unique_key
                      read_shard (files w1) (bounds country_config) downloaded_files
                      0 0 c1 with
              | (Raise e, c2) => (Uncaught e, w1, c2)
              | (Return _, c2) =>
                  if keep_files args then (Returned, w1, c2)
                  else (Returned,
                        mkWorld (cleanup downloaded_files (files w1)) (requests w1), c2)
              end
        end
    end.

(** *** The download loop and the clean-up *)

Lemma string_length_app (a b : string) :
  String.length (a +:+ b) = (String.length a + String.length b)%nat.
Proof. induction a as [|ch a IH]; simpl; [reflexivity|by rewrite IH]. Qed.

Lemma string_app_inj_r (a b t : string) : a +:+ t = b +:+ t -> a = b.
Proof.
  revert b. induction a as [|ch a IH]; intros [|ch' b] Heq; simpl in Heq.
  - reflexivity.
  - apply (f_equal String.length) in Heq. simpl in Heq.
    change ("" +:+ t) with t in Heq.
    rewrite (string_length_app b t) in Heq. lia.
  - apply (f_equal String.length) in Heq. simpl in Heq.
    change ("" +:+ t) with t in Heq.
    rewrite (string_length_app a t) in Heq. lia.
  - injection Heq as -> Heq. f_equal. by apply IH.
Qed.

Lemma shard_dest_inj (work_dir : Path) (cell cell' : string) :
  shard_dest work_dir cell = shard_dest work_dir cell' -> cell = cell'.
Proof.
  unfold shard_dest, shard_filename. intros Heq.
  apply String.app_inj in Heq. apply String.app_inj in Heq.
  by apply string_app_inj_r in Heq.
Qed.

Lemma broken_download_kept (net : string -> Response) (url : string) (dest : Path)
    (w : World) (status_code : Z) (body : Body) :
  exists_nonempty (files w) dest = false ->
  net url = GetReturns status_code body ->
  status_code <> 404 ->
  raise_for_status status_code = false ->
  breaks body = true ->
  exists w1,
    download_file net url dest w = (false, w1) /\
    files w1 !! dest = Some (delivered body).
Proof.
  intros Habsent Hnet H404 Hstatus Hbreaks.
  rewrite download_file_fetch by exact Habsent. rewrite Hnet, Hstatus, Hbreaks.
  apply Z.eqb_neq in H404. rewrite H404. simpl.
  eexists. split; [reflexivity|]. simpl. apply lookup_insert_eq.
Qed.

Lemma download_cells_app (net : string -> Response) (work_dir : Path)
    (l1 l2 : list string) (w : World) :
  download_cells net work_dir (l1 ++ l2) w =
    let '(d1, w1) := download_cells net work_dir l1 w in
    let '(d2, w2) := download_cells net work_dir l2 w1 in
    (d1 ++ d2, w2).
Proof.
  revert w. induction l1 as [|cell rest IH]; intros w; simpl.
  - by destruct (download_cells net work_dir l2 w).
  - destruct (download_file net (shard_url cell) (shard_dest work_dir cell) w) as [ok w1].
    rewrite IH. destruct (download_cells net work_dir rest w1) as [d1 w2].
    destruct (download_cells net work_dir l2 w2) as [d2 w3]. by destruct ok.
Qed.

Lemma download_cells_effects (net : string -> Response) (work_dir : Path)
    (cells : list string) (w : World) :
  let '(downloaded, w') := download_cells net work_dir cells w in
  downloaded `sublist_of` (shard_dest work_dir <$> cells) /\
  Forall (fun filepath => is_Some (files w' !! filepath)) downloaded /\
  (length (requests w') <= length (requests w) + length cells)%nat /\
  (forall path, is_Some (files w !! path) -> is_Some (files w' !! path)) /\
  (forall path, path ∉ shard_dest work_dir <$> cells -> files w' !! path = files w !! path).
Proof.
  revert w. induction cells as [|cell rest IH]; intros w; simpl.
  - split; [constructor|]. split; [constructor|]. split; [lia|]. done.
  - pose proof (download_file_effects net (shard_url cell) (shard_dest work_dir cell) w)
      as Hone.
    destruct (download_file net (shard_url cell) (shard_dest work_dir cell) w) as [ok w1].
    destruct Hone as (Hreq & Hother & Hkeep & Hok).
    specialize (IH w1). destruct (download_cells net work_dir rest w1) as [d w2].
    destruct IH as (Hsub & Hex & Hlen & Hkeep2 & Hother2).
    split; [destruct ok; [by apply sublist_skip|by apply sublist_cons]|].
    split.
    { destruct ok; [|exact Hex]. constructor; [|exact Hex]. apply Hkeep2. by apply Hok. }
    split.
    { destruct Hreq as [Hreq|Hreq]; rewrite Hreq in Hlen;
        try rewrite length_app in Hlen; simpl in Hlen; lia. }
    split; [auto|].
    intros path Hpath. apply not_elem_of_cons in Hpath as [Hne Hrest].
    rewrite Hother2 by exact Hrest. by apply Hother.
Qed.

Lemma cleanup_lookup (downloaded_files : list Path) (fs : FileSystem) (path : Path) :
  cleanup downloaded_files fs !! path =
    if decide (path ∈ downloaded_files) then None else fs !! path.
Proof.
  revert fs. induction downloaded_files as [|p rest IH]; intros fs.
  - destruct (decide (path ∈ [])) as [Hin|_]; [by apply elem_of_nil in Hin|reflexivity].
  - cbn [cleanup]. rewrite IH.
    destruct (decide (path ∈ rest)) as [Hin|Hnotin];
      destruct (decide (path ∈ p :: rest)) as [Hin'|Hnotin'].
    + reflexivity.
    + exfalso. apply Hnotin'. by right.
    + apply elem_of_cons in Hin' as [->|Hin']; [apply lookup_delete_eq|contradiction].
    + apply lookup_delete_ne. intros ->. apply Hnotin'. by left.
Qed.

(** X14.  The download loop lists, in the order of the cells, destinations of
    cells whose fetch returned [True]; every listed file exists when the
    loop ends; the loop sends at most one request per cell, removes no file,
    and touches no file that is not the destination of one of the cells. *)
Theorem download_loop_effects (net : string -> Response) (work_dir : Path)
    (cells : list string) (w : World) :
  let '(downloaded, w') := download_cells net work_dir cells w in
  downloaded `sublist_of` (shard_dest work_dir <$> cells) /\
  Forall (fun filepath => is_Some (files w' !! filepath)) downloaded /\
  (length (requests w') <= length (requests w) + length cells)%nat /\
  (forall path, is_Some (files w !! path) -> is_Some (files w' !! path)) /\
  (forall path, path ∉ shard_dest work_dir <$> cells -> files w' !! path = files w !! path).
Proof. apply download_cells_effects. Qed.

(** X15.  A download that broke stays on disk through the run.  When the body of
    one cell of a list of distinct cells breaks, the file holds the bytes
    received before the break after the download loop, it is not among the
    downloaded files, and the clean-up of the downloaded files leaves it. *)
Theorem truncated_file_survives_run (net : string -> Response) (work_dir : Path)
    (before after : list string) (cell : string) (w : World)
    (status_code : Z) (body : Body) :
  NoDup (before ++ cell :: after) ->
  exists_nonempty (files w) (shard_dest work_dir cell) = false ->
  net (shard_url cell) = GetReturns status_code body ->
  status_code <> 404 ->
  raise_for_status status_code = false ->
  breaks body = true ->
  let '(downloaded, w') := download_cells net work_dir (before ++ cell :: after) w in
  files w' !! shard_dest work_dir cell = Some (delivered body) /\
  (shard_dest work_dir cell ∉ downloaded) /\
  cleanup downloaded (files w') !! shard_dest work_dir cell = Some (delivered body).
Proof.
  intros Hnd Habsent Hnet H404 Hstatus Hbreaks.
  apply NoDup_app in Hnd as (_ & Hdisj & Hnd2).
  apply NoDup_cons in Hnd2 as [Hnotafter _].
  assert (Hnotbefore : cell ∉ before).
  { intros Hin. apply (Hdisj cell Hin). by left. }
  assert (Hdest : forall l : list string,
            cell ∉ l -> shard_dest work_dir cell ∉ shard_dest work_dir <$> l).
  { intros l Hl Hin. apply list_elem_of_fmap in Hin as (x & Heq & Hx).
    apply shard_dest_inj in Heq. by subst. }
  rewrite download_cells_app.
  pose proof (download_cells_effects net work_dir before w) as H1.
  destruct (download_cells net work_dir before w) as [d1 w1].
  destruct H1 as (Hsub1 & _ & _ & _ & Hsame1).
  cbn [download_cells].
  destruct (broken_download_kept net (shard_url cell) (shard_dest work_dir cell) w1
              status_code body) as (w2 & Hrun & Hfile); try assumption.
  { unfold exists_nonempty in *. by rewrite Hsame1 by (by apply Hdest). }
  rewrite Hrun.
  pose proof (download_cells_effects net work_dir after w2) as H3.
  destruct (download_cells net work_dir after w2) as [d3 w3].
  destruct H3 as (Hsub3 & _ & _ & _ & Hsame3).
  assert (Hnotin : shard_dest work_dir cell ∉ d1 ++ d3).
  { intros Hin. apply elem_of_app in Hin as [Hin|Hin].
    - apply (Hdest before Hnotbefore). by eapply elem_of_sublist.
    - apply (Hdest after Hnotafter). by eapply elem_of_sublist. }
  assert (Hkept : files w3 !! shard_dest work_dir cell = Some (delivered body)).
  { rewrite Hsame3 by (by apply Hdest). exact Hfile. }
  split; [exact Hkept|]. split; [exact Hnotin|].
  rewrite cleanup_lookup. by destruct (decide (shard_dest work_dir cell ∈ d1 ++ d3)).
Qed.

(** *** The whole run *)

(** X16.  [main] ends before any effect when the country is not configured
    ([sys.exit(1)]) and when the covering library is missing (the
    [RuntimeError] is not caught): no request is sent, no file is touched,
    and the connection is left as it was.  When the migration raises, the
    run ends with that exception before any request is sent. *)
Theorem main_stops_before_effects (args : Args) (has_s2sphere : bool)
    (country_configs : gmap string CountryEntry) (net : string -> Response)
    (w : World) (c : Conn Geom) :
  list_countries args = false ->
  (country_configs !! upper (country args) = None ->
   main args has_s2sphere country_configs net w c = (SysExit 1, w, c)) /\
  (is_Some (country_configs !! upper (country args)) -> has_s2sphere = false ->
   main args has_s2sphere country_configs net w c = (Uncaught RuntimeError, w, c)) /\
  (forall country_config e c1,
     get_country_config CellId get_covering to_token has_s2sphere country_configs
       (country args) = Return country_config ->
     dry_run args = false ->
     apply_migration c = (Some e, c1) ->
     main args has_s2sphere country_configs net w c = (Uncaught e, w, c1)).
Proof.
  intros Hlist. unfold main. rewrite Hlist. split; [|split].
  - unfold get_country_config. by intros ->.
  - unfold get_country_config. intros [entry ->] ->. reflexivity.
  - intros country_config e c1 -> -> ->. reflexivity.
Qed.

(** X17.  A dry run leaves the database alone, the migration included, and
    deletes no scratch file. *)
Theorem dry_run_keeps_database (args : Args) (has_s2sphere : bool)
    (country_configs : gmap string CountryEntry) (net : string -> Response)
    (w : World) (c : Conn Geom) :
  dry_run args = true ->
  let '(exit, w', c') := main args has_s2sphere country_configs net w c in
  c' = c /\
  forall path, is_Some (files w !! path) -> is_Some (files w' !! path).
Proof.
  intros Hdry. unfold main. rewrite Hdry.
  destruct (list_countries args); [done|].
  destruct (get_country_config _ _ _ _ _ _) as [cfg|e]; [|by destruct e].
  cbv iota beta.
  pose proof (download_cells_effects net (work_dir_of tmpdir (country args))
                (s2_cells cfg) w) as Hloop.
  destruct (download_cells net _ (s2_cells cfg) w) as [d w1].
  destruct Hloop as (_ & _ & _ & Hkeep & _). by split.
Qed.

(** X18.  After a migration that succeeded, a run that imports and returns,
    without [--keep-files], leaves none of the files it downloaded or reused
    on disk; a run whose import raises ends before the clean-up, with its
    scratch files in place. *)
Theorem main_cleans_up_after_import (args : Args) (has_s2sphere : bool)
    (country_configs : gmap string CountryEntry) (net : string -> Response)
    (w : World) (c c1 : Conn Geom) (country_config : CountryConfig) :
  list_countries args = false ->
  dry_run args = false ->
  keep_files args = false ->
  get_country_config CellId get_covering to_token has_s2sphere country_configs
    (country args) = Return country_config ->
  apply_migration c = (None, c1) ->
  let '(downloaded, w1) :=
    download_cells net (work_dir_of tmpdir (country args)) (s2_cells country_config) w in
  match main args has_s2sphere country_configs net w c with
  | (Returned, w', _) =>
      Forall (fun filepath => files w' !! filepath = None) downloaded /\
      forall path, path ∉ downloaded -> files w' !! path = files w1 !! path
  | (_, w', _) => w' = w1
  end.
Proof.
  intros Hlist Hdry Hkeep Hcfg Hmig. unfold main.
  rewrite Hlist, Hdry, Hkeep, Hcfg, Hmig.
  destruct (download_cells net _ (s2_cells country_config) w) as [d w1].
  destruct (import_files _ _ _ _ _ _ _ _ _ _ _ _ _) as [[totals|e] c2]; [|reflexivity].
  cbn [files]. split.
  - apply Forall_forall. intros p Hp. rewrite cleanup_lookup.
    by destruct (decide (p ∈ d)).
  - intros path Hpath. rewrite cleanup_lookup. by destruct (decide (path ∈ d)).
Qed.

End Orchestrator.

(** ** Further scenarios *)

(** Stand-ins for a whole run: a [float] that also reads the text nan, a
    configuration file with Uganda alone, a server that has no shard, a
    migration that commits, and the arguments of three runs. *)
Module Run.

Definition float_of_text (s : string) : option float :=
  if String.eqb s "nan" then Some nan else Scenario.float_of_text s.

Definition row_nan :=
  Scenario.csv_row "nan" "32.5" "POLYGON((32.5 0.5, 32.6 0.5, 32.6 0.6, 32.5 0.5))" "6GGJ+E".

Definition country_configs : gmap string CountryEntry :=
  {[ "UGA" := mkCountryEntry "Uganda" Scenario.uga ]}.

Definition not_found (url : string) : Response := GetReturns 404 BodyEnd.

Definition migration (c : Conn string) : option exn * Conn string := (None, commit string c).

Definition work_dir : Path := "/tmp/google_buildings/uga".

Definition run (args : Args) (has_s2sphere : bool) (net : string -> Response)
    (w : World) (c : Conn string) : Exit * World * Conn string :=
  @main Scenario.float_of_text string Scenario.geom_of_text (fun g => g) Scenario.fits_columns string _
    Scenario.key_of Scenario.reader Z Scenario.one_cell Scenario.token_of migration "/tmp"
    args has_s2sphere country_configs net w c.

End Run.

(** *** The further theorems at concrete inputs *)

Lemma refused_download_leaves_disk_witness :
  download_file Run.not_found (shard_url "1b") (shard_dest Run.work_dir "1b")
      (mkWorld Scenario.scratch []) =
    (false, mkWorld Scenario.scratch [shard_url "1b"]).
Proof.
  apply (refused_download_leaves_disk Run.not_found (shard_url "1b")
           (shard_dest Run.work_dir "1b") (mkWorld Scenario.scratch [])).
  - vm_compute. reflexivity.
  - left. reflexivity.
Defined.

Lemma complete_download_stores_body_witness :
  download_file Scenario.fresh_download (shard_url "1b") (shard_dest Run.work_dir "1b")
      (mkWorld Scenario.scratch []) =
    (true,
     mkWorld (<[shard_dest Run.work_dir "1b" := [Byte.x1f; Byte.x8b; Byte.x08]]>
                Scenario.scratch)
       [shard_url "1b"]).
Proof.
  apply (complete_download_stores_body Scenario.fresh_download (shard_url "1b")
           (shard_dest Run.work_dir "1b") (mkWorld Scenario.scratch []) 200
           (BodyChunk [Byte.x1f; Byte.x8b; Byte.x08] BodyEnd)).
  - vm_compute. reflexivity.
  - reflexivity.
  - lia.
  - lia.
  - reflexivity.
Defined.

(** Two rows without plus code are both stored; a record whose area the
    column refuses fails its statement and is not stored. *)
Lemma insert_batch_null_keys_and_refused_value :
  insert_batch string Scenario.geom_of_text (fun g => g) Scenario.fits_columns string
      Scenario.key_of (connect string [])
      [Scenario.rec_without_code; Scenario.rec_without_code] =
    (2, connect string [Scenario.stored Scenario.rec_without_code;
                        Scenario.stored Scenario.rec_without_code]) /\
  insert_batch string Scenario.geom_of_text (fun g => g) Scenario.fits_columns string
      Scenario.key_of (connect string []) [Scenario.rec_huge_area] =
    (0, connect string []) /\
  insert_batch string Scenario.geom_of_text (fun g => g) Scenario.fits_columns string
      Scenario.key_of (connect string []) [Scenario.rec_a; Scenario.rec_huge_area] =
    (1, connect string [Scenario.stored Scenario.rec_a]).
Proof. repeat split; vm_compute; reflexivity. Qed.

Lemma insert_batch_counts_last_page_witness :
  insert_batch string Scenario.geom_of_text (fun g => g) Scenario.fits_columns string Scenario.key_of
      (connect string []) [Scenario.rec_a; Scenario.rec_b] =
    (2, connect string [Scenario.stored Scenario.rec_a; Scenario.stored Scenario.rec_b]) /\
  length (omap (values_row string Scenario.geom_of_text (fun g => g) Scenario.fits_columns)
            [Scenario.rec_a; Scenario.rec_b]) = 2%nat.
Proof.
  apply (insert_batch_counts_last_page string Scenario.geom_of_text (fun g => g)
           Scenario.fits_columns string Scenario.key_of [] [Scenario.rec_a; Scenario.rec_b]).
  - discriminate.
  - repeat constructor; eexists; reflexivity.
  - vm_compute. apply NoDup_cons. split; [|apply NoDup_singleton].
    intros H. apply list_elem_of_singleton in H. discriminate.
  - repeat constructor; apply not_elem_of_nil.
Defined.

Lemma import_csv_file_all_skipped_witness :
  Scenario.load (connect string [Scenario.stored Scenario.rec_a])
      (mkShard [Scenario.row_outside; Scenario.row_outside] None) =
    (Return (0, 2), connect string [Scenario.stored Scenario.rec_a]).
Proof.
  apply (import_csv_file_all_skipped Scenario.float_of_text string Scenario.geom_of_text
           (fun g => g) Scenario.fits_columns string Scenario.key_of
           (connect string [Scenario.stored Scenario.rec_a])
           [Scenario.row_outside; Scenario.row_outside] Scenario.uga 5000).
  repeat constructor.
Defined.

Lemma failed_shard_stores_nothing_witness :
  exists e,
    Scenario.load (connect string []) (mkShard [Scenario.row_a] (Some GzipError)) =
      (Raise e, connect string []).
Proof.
  apply (failed_shard_stores_nothing Scenario.float_of_text string Scenario.geom_of_text
           (fun g => g) Scenario.fits_columns string Scenario.key_of (connect string [])
           (mkShard [Scenario.row_a] (Some GzipError)) Scenario.uga 5000).
  - vm_compute. reflexivity.
  - left. eexists. reflexivity.
Defined.

Lemma import_csv_file_in_batches_witness :
  let shard := mkShard [Scenario.row_a; Scenario.row_outside; Scenario.row_b] None in
  let batches :=
    paginate 1 (yielded Scenario.float_of_text Scenario.uga (shard_rows shard)) in
  batches = [[Scenario.rec_a]; [Scenario.rec_b]] /\
  @import_csv_file Scenario.float_of_text string Scenario.geom_of_text (fun g => g)
      Scenario.fits_columns string _ Scenario.key_of (connect string []) shard Scenario.uga 1 =
    (Return (2, 1),
     connect string [Scenario.stored Scenario.rec_a; Scenario.stored Scenario.rec_b]).
Proof.
  cbv zeta. split; [vm_compute; reflexivity|].
  destruct (import_csv_file_in_batches Scenario.float_of_text string Scenario.geom_of_text
              (fun g => g) Scenario.fits_columns string Scenario.key_of (connect string [])
              (mkShard [Scenario.row_a; Scenario.row_outside; Scenario.row_b] None)
              Scenario.uga 1) as [Hrun _].
  - lia.
  - reflexivity.
  - repeat constructor; intros e; vm_compute; discriminate.
  - rewrite Hrun. vm_compute. reflexivity.
Defined.

Lemma in_bounds_needs_numbers_witness :
  PrimFloat.is_nan 0.5 = false /\ PrimFloat.is_nan 32.5 = false /\
  PrimFloat.leb (min_lat Scenario.uga) (max_lat Scenario.uga) = true /\
  PrimFloat.leb (min_lon Scenario.uga) (max_lon Scenario.uga) = true.
Proof.
  apply (in_bounds_needs_numbers 0.5 32.5 Scenario.uga). vm_compute. reflexivity.
Defined.

Lemma bounds_contain_their_corners_witness :
  is_in_bounds (min_lat Scenario.uga) (min_lon Scenario.uga) Scenario.uga = true /\
  is_in_bounds (min_lat Scenario.uga) (max_lon Scenario.uga) Scenario.uga = true /\
  is_in_bounds (max_lat Scenario.uga) (min_lon Scenario.uga) Scenario.uga = true /\
  is_in_bounds (max_lat Scenario.uga) (max_lon Scenario.uga) Scenario.uga = true.
Proof.
  apply (bounds_contain_their_corners Scenario.uga); vm_compute; reflexivity.
Defined.

Lemma nan_row_is_skipped_witness :
  row_outcome Run.float_of_text Run.row_nan Scenario.uga = Skipped.
Proof.
  apply (nan_row_is_skipped Run.float_of_text Run.row_nan Scenario.uga nan 32.5).
  - vm_compute. reflexivity.
  - left. reflexivity.
Defined.

Lemma truncated_file_survives_run_witness :
  let '(downloaded, w') :=
    download_cells Scenario.broken_after_two_bytes Run.work_dir (["199"] ++ "1b" :: [])
      (mkWorld Scenario.scratch []) in
  files w' !! shard_dest Run.work_dir "1b" = Some [Byte.x1f; Byte.x8b] /\
  (shard_dest Run.work_dir "1b" ∉ downloaded) /\
  cleanup downloaded (files w') !! shard_dest Run.work_dir "1b" = Some [Byte.x1f; Byte.x8b].
Proof.
  apply (truncated_file_survives_run Scenario.broken_after_two_bytes Run.work_dir
           ["199"] [] "1b" (mkWorld Scenario.scratch []) 200
           (BodyChunk [Byte.x1f; Byte.x8b] BodyBroken)).
  - apply (bool_decide_unpack _). vm_compute. exact I.
  - vm_compute. reflexivity.
  - reflexivity.
  - lia.
  - reflexivity.
  - reflexivity.
Defined.

Lemma main_stops_before_effects_witness :
  Run.run (mkArgs "xyz" false false false) true Scenario.fresh_download
      (mkWorld Scenario.scratch []) (connect string []) =
    (SysExit 1, mkWorld Scenario.scratch [], connect string []) /\
  Run.run (mkArgs "uga" false false false) false Scenario.fresh_download
      (mkWorld Scenario.scratch []) (connect string []) =
    (Uncaught RuntimeError, mkWorld Scenario.scratch [], connect string []).
Proof.
  split.
  - apply (main_stops_before_effects Scenario.float_of_text string Scenario.geom_of_text
             (fun g => g) Scenario.fits_columns string Scenario.key_of Scenario.reader Z
             Scenario.one_cell Scenario.token_of Run.migration "/tmp"
             (mkArgs "xyz" false false false) true Run.country_configs
             Scenario.fresh_download (mkWorld Scenario.scratch []) (connect string [])
             eq_refl).
    vm_compute. reflexivity.
  - apply (main_stops_before_effects Scenario.float_of_text string Scenario.geom_of_text
             (fun g => g) Scenario.fits_columns string Scenario.key_of Scenario.reader Z
             Scenario.one_cell Scenario.token_of Run.migration "/tmp"
             (mkArgs "uga" false false false) false Run.country_configs
             Scenario.fresh_download (mkWorld Scenario.scratch []) (connect string [])
             eq_refl).
    + eexists. vm_compute. reflexivity.
    + reflexivity.
Defined.

Lemma dry_run_keeps_database_witness :
  let '(exit, w', c') :=
    Run.run (mkArgs "uga" true false false) true Scenario.fresh_download
      (mkWorld Scenario.scratch []) (mkConn string [] [Scenario.stored Scenario.rec_a]) in
  c' = mkConn string [] [Scenario.stored Scenario.rec_a] /\
  forall path, is_Some (Scenario.scratch !! path) -> is_Some (files w' !! path).
Proof.
  apply (dry_run_keeps_database Scenario.float_of_text string Scenario.geom_of_text
           (fun g => g) Scenario.fits_columns string Scenario.key_of Scenario.reader Z
           Scenario.one_cell Scenario.token_of Run.migration "/tmp"
           (mkArgs "uga" true false false) true Run.country_configs
           Scenario.fresh_download (mkWorld Scenario.scratch [])
           (mkConn string [] [Scenario.stored Scenario.rec_a])).
  reflexivity.
Defined.

Lemma main_cleans_up_after_import_witness :
  fst (fst (Run.run (mkArgs "uga" false false false) true Scenario.fresh_download
              (mkWorld ∅ []) (connect string []))) = Returned /\
  let '(downloaded, w1) :=
    download_cells Scenario.fresh_download (work_dir_of "/tmp" "uga") ["17d"]
      (mkWorld ∅ []) in
  match Run.run (mkArgs "uga" false false false) true Scenario.fresh_download
          (mkWorld ∅ []) (connect string []) with
  | (Returned, w', _) =>
      Forall (fun filepath => files w' !! filepath = None) downloaded /\
      forall path, path ∉ downloaded -> files w' !! path = files w1 !! path
  | (_, w', _) => w' = w1
  end.
Proof.
  split; [vm_compute; reflexivity|].
  apply (main_cleans_up_after_import Scenario.float_of_text string Scenario.geom_of_text
           (fun g => g) Scenario.fits_columns string Scenario.key_of Scenario.reader Z
           Scenario.one_cell Scenario.token_of Run.migration "/tmp"
           (mkArgs "uga" false false false) true Run.country_configs
           Scenario.fresh_download (mkWorld ∅ []) (connect string [])
           (connect string []) (mkCountryConfig "Uganda" Scenario.uga ["17d"])).
  - reflexivity.
  - reflexivity.
  - reflexivity.
  - vm_compute. reflexivity.
  - reflexivity.
Defined.

End Importer.

Module Regions.

(** ** RegionGeometryGenerator: [km_to_degrees], [create_circle_polygon] *)

(** The float arithmetic the generator uses.  [of_int] is the conversion of
    an [int] operand in mixed arithmetic, [decimal m e] the literal
    [m * 10^e], [round_to x n] is [round(x, n)]. *)
Record FloatOps (F : Type) : Type := mkFloatOps {
  of_int : Z -> F;
  decimal : Z -> Z -> F;
  add : F -> F -> F;
  mul : F -> F -> F;
  div : F -> F -> F;
  is_zero : F -> bool;
  cos : F -> F;
  sin : F -> F;
  radians : F -> F;
  pi : F;
  round_to : F -> Z -> F
}.
Arguments of_int {F} _ _.
Arguments decimal {F} _ _ _.
Arguments add {F} _ _ _.
Arguments mul {F} _ _ _.
Arguments div {F} _ _ _.
Arguments is_zero {F} _ _.
Arguments cos {F} _ _.
Arguments sin {F} _ _.
Arguments radians {F} _ _.
Arguments pi {F} _.
Arguments round_to {F} _ _ _.

Section Polygon.

Variable F : Type.
Variable ops : FloatOps F.

(** [x / y] on floats raises [ZeroDivisionError] when [y] is zero. *)
Definition truediv (x y : F) : Exc F :=
  if is_zero ops y then Raise ZeroDivisionError else Return (div ops x y).

Definition km_to_degrees (km latitude : F) : Exc F :=
  let lat_factor := cos ops (radians ops latitude) in
  truediv km (mul ops (of_int ops 111) lat_factor).

(** The body of the loop for one [i]: the pair [[round(lon, 6), round(lat, 6)]]. *)
Definition vertex (center_lon center_lat radius_deg : F) (num_points i : Z) : Exc (F * F) :=
  (let* angle := truediv (mul ops (mul ops (of_int ops 2) (pi ops)) (of_int ops i))
                         (of_int ops num_points) in
   let lon := add ops center_lon (mul ops radius_deg (cos ops angle)) in
   let lat := add ops center_lat
                (mul ops (mul ops radius_deg (sin ops angle)) (decimal ops 9 (-1))) in
   Return (round_to ops lon 6, round_to ops lat 6))%exc.

(** [for i in range(num_points): ... coords.append(...)] *)
Fixpoint vertices (center_lon center_lat radius_deg : F) (num_points : Z)
    (range : list Z) : Exc (list (F * F)) :=
  match range with
  | [] => Return []
  | i :: rest =>
      (let* v := vertex center_lon center_lat radius_deg num_points i in
       let* vs := vertices center_lon center_lat radius_deg num_points rest in
       Return (v :: vs))%exc
  end.

Definition create_circle_polygon (center_lon center_lat radius_km : F)
    (num_points : Z) : Exc (list (list (F * F))) :=
  (let* radius_deg := km_to_degrees radius_km center_lat in
   let* coords := vertices center_lon center_lat radius_deg num_points
                    (seqZ 0 num_points) in
   match coords with
   | [] => Raise IndexError
   | first :: _ => Return [coords ++ [first]]
   end)%exc.

(** *** The shape of the polygon, whatever the arithmetic *)

Lemma vertices_spec (center_lon center_lat radius_deg : F) (num_points : Z)
    (range : list Z) (coords : list (F * F)) :
  vertices center_lon center_lat radius_deg num_points range = Return coords ->
  length coords = length range /\
  forall (k : nat) (i : Z),
    range !! k = Some i ->
    exists v,
      coords !! k = Some v /\
      vertex center_lon center_lat radius_deg num_points i = Return v.
Proof.
  revert coords. induction range as [|i rest IH]; intros coords Hrun; simpl in Hrun.
  - injection Hrun as <-. split; [reflexivity|]. intros k j Hk. by destruct k.
  - destruct (vertex center_lon center_lat radius_deg num_points i) as [v|e] eqn:Hv;
      [|discriminate].
    simpl in Hrun.
    destruct (vertices center_lon center_lat radius_deg num_points rest) as [vs|e] eqn:Hvs;
      [|discriminate].
    simpl in Hrun. injection Hrun as <-.
    destruct (IH vs eq_refl) as [Hlen Hnth].
    split; [simpl; by rewrite Hlen|].
    intros [|k] j Hk; simpl in *.
    + injection Hk as <-. by exists v.
    + by apply Hnth.
Qed.

Lemma create_circle_polygon_shape (center_lon center_lat radius_km : F)
    (num_points : Z) (polygon : list (list (F * F))) :
  create_circle_polygon center_lon center_lat radius_km num_points = Return polygon ->
  exists radius_deg coords,
    km_to_degrees radius_km center_lat = Return radius_deg /\
    polygon = [coords] /\
    length coords = S (Z.to_nat num_points) /\
    coords !! O = coords !! Z.to_nat num_points /\
    forall i : Z,
      0 <= i < num_points ->
      exists v,
        coords !! Z.to_nat i = Some v /\
        vertex center_lon center_lat radius_deg num_points i = Return v.
Proof.
  unfold create_circle_polygon. intros Hrun.
  destruct (km_to_degrees radius_km center_lat) as [radius_deg|e]; [|discriminate].
  simpl in Hrun.
  destruct (vertices center_lon center_lat radius_deg num_points (seqZ 0 num_points))
    as [vs|e] eqn:Hvs; [|discriminate].
  simpl in Hrun. destruct vs as [|first vs']; [discriminate|].
  injection Hrun as <-.
  destruct (vertices_spec _ _ _ _ _ _ Hvs) as [Hlen Hnth].
  rewrite length_seqZ in Hlen.
  exists radius_deg, ((first :: vs') ++ [first]).
  split; [reflexivity|]. split; [reflexivity|].
  split; [rewrite length_app, Hlen; simpl; lia|].
  split.
  - rewrite <- Hlen.
    rewrite (lookup_app_r (first :: vs') [first] (length (first :: vs'))) by lia.
    by rewrite Nat.sub_diag.
  - intros i Hi.
    destruct (Hnth (Z.to_nat i) i) as (v & Hv & Hvert).
    { rewrite lookup_seqZ. split; lia. }
    exists v. split; [|exact Hvert].
    rewrite lookup_app_l; [exact Hv|].
    apply lookup_lt_Some in Hv. exact Hv.
Qed.

End Polygon.

(** *** The generator on real numbers *)

(** The arithmetic of the generator read on the reals: every operation is
    the exact one, and [round(x, n)] rounds [x * 10^n] to the nearest integer,
    ties to even.  This is not binary64: on the reals the cosine of a right
    angle is 0, no conversion overflows and no sum absorbs a small term.
    What is proved with it holds of the generator in exact arithmetic, not
    of its binary64 run; the statements about the code as it runs are those
    proved for every [FloatOps]. *)
Section RealModel.

#[local] Open Scope R_scope.

Definition round_half_even (y : R) : Z :=
  let n := Int_part y in
  if Rlt_dec (frac_part y) (1 / 2) then n
  else if Rlt_dec (1 / 2) (frac_part y) then (n + 1)%Z
  else if Z.even n then n else (n + 1)%Z.

Definition real_round (x : R) (ndigits : Z) : R :=
  IZR (round_half_even (x * powerRZ 10 ndigits)) / powerRZ 10 ndigits.

Definition real_ops : FloatOps R :=
  mkFloatOps R IZR (fun m e => IZR m * powerRZ 10 e) Rplus Rmult Rdiv
    (fun x => if Req_dec_T x 0 then true else false)
    Rtrigo_def.cos Rtrigo_def.sin (fun x => x * (PI / 180)) PI real_round.

(** The angle of vertex [i] and the point before rounding. *)
Definition angle (i : Z) : R := 2 * PI * IZR i / IZR 32.

Definition real_vertex (center_lon center_lat radius_deg : R) (i : Z) : R * R :=
  (real_round (center_lon + radius_deg * Rtrigo_def.cos (angle i)) 6,
   real_round (center_lat
               + radius_deg * Rtrigo_def.sin (angle i) * (IZR 9 * powerRZ 10 (-1))) 6).

(** Kampala: center (32.5825, 0.3476), radius 35 km. *)
Definition kampala_lon : R := decimal real_ops 325825 (-4).
Definition kampala_lat : R := decimal real_ops 3476 (-4).
Definition kampala_radius_km : R := of_int real_ops 35.

Lemma round_half_even_near (y : R) :
  - (1 / 2) <= IZR (round_half_even y) - y <= 1 / 2.
Proof.
  unfold round_half_even.
  pose proof (Rplus_Int_part_frac_part y) as Hy.
  pose proof (base_fp y) as [Hf0 Hf1].
  destruct (Rlt_dec (frac_part y) (1 / 2)) as [Hlt|Hge]; [lra|].
  destruct (Rlt_dec (1 / 2) (frac_part y)) as [Hgt|Hle].
  - rewrite plus_IZR. lra.
  - destruct (Z.even (Int_part y)); [lra|]. rewrite plus_IZR. lra.
Qed.

Lemma real_round_near (x : R) :
  - (1 / 2000000) <= real_round x 6 - x <= 1 / 2000000.
Proof.
  unfold real_round.
  replace (powerRZ 10 6) with 1000000 by (simpl; lra).
  pose proof (round_half_even_near (x * 1000000)) as H.
  lra.
Qed.

Lemma real_round_eq_close (x y : R) :
  real_round x 6 = real_round y 6 -> - (1 / 1000000) <= x - y <= 1 / 1000000.
Proof.
  intros Heq.
  pose proof (real_round_near x). pose proof (real_round_near y). lra.
Qed.

Lemma cos_sixteenth : Rtrigo_def.cos (PI / 16) <= 99 / 100.
Proof.
  pose proof (cos_2a_cos (PI / 16)) as H8.
  pose proof (cos_2a_cos (2 * (PI / 16))) as H4.
  pose proof (cos_2a_cos (2 * (2 * (PI / 16)))) as H2.
  replace (2 * (2 * (2 * (PI / 16)))) with (PI / 2) in H2 by lra.
  rewrite cos_PI2 in H2.
  pose proof (COS_bound (PI / 16)) as [_ Hc1].
  pose proof (COS_bound (2 * (PI / 16))) as [_ Hc2].
  pose proof (COS_bound (2 * (2 * (PI / 16)))) as [_ Hc4].
  set (c1 := Rtrigo_def.cos (PI / 16)) in *.
  set (c2 := Rtrigo_def.cos (2 * (PI / 16))) in *.
  set (c4 := Rtrigo_def.cos (2 * (2 * (PI / 16)))) in *.
  destruct (Rle_dec c1 (99 / 100)) as [Hle|Hgt]; [exact Hle|exfalso].
  assert (H1 : 99 / 100 < c1) by lra.
  assert (Hc2' : 96 / 100 < c2) by nra.
  assert (Hc4' : 84 / 100 < c4) by nra.
  nra.
Qed.

Lemma cos_two_pi_minus (x : R) : Rtrigo_def.cos (2 * PI - x) = Rtrigo_def.cos x.
Proof. rewrite cos_minus, cos_2PI, sin_2PI. ring. Qed.

(** The angle between two distinct vertices of the 32-gon is at least a
    thirty-second of a turn. *)
Lemma cos_step_bound (k : Z) :
  (1 <= k <= 31)%Z -> Rtrigo_def.cos (2 * PI * IZR k / IZR 32) <= 99 / 100.
Proof.
  intros Hk. pose proof PI_RGT_0 as Hpi.
  assert (H1 : 1 <= IZR k) by (apply IZR_le; lia).
  assert (H31 : IZR k <= 31) by (apply IZR_le; lia).
  destruct (Z_le_gt_dec k 16) as [Hlow|Hhigh].
  - assert (H16 : IZR k <= 16) by (apply IZR_le; lia).
    eapply Rle_trans; [|exact cos_sixteenth].
    apply cos_decr_1; nra.
  - assert (H17 : 17 <= IZR k) by (apply IZR_le; lia).
    rewrite <- cos_two_pi_minus.
    eapply Rle_trans; [|exact cos_sixteenth].
    apply cos_decr_1; nra.
Qed.

Lemma vertex_real (center_lon center_lat radius_deg : R) (i : Z) :
  vertex R real_ops center_lon center_lat radius_deg 32 i =
    Return (real_vertex center_lon center_lat radius_deg i).
Proof.
  unfold vertex, truediv. cbn [is_zero of_int real_ops].
  destruct (Req_dec_T (IZR 32) 0) as [H|_]; [lra|]. reflexivity.
Qed.

Lemma angle_diff (i j : Z) : angle i - angle j = 2 * PI * IZR (i - j) / IZR 32.
Proof. unfold angle. rewrite minus_IZR. field. Qed.

Lemma chord (a b : R) :
  (Rtrigo_def.cos a - Rtrigo_def.cos b) * (Rtrigo_def.cos a - Rtrigo_def.cos b)
  + (Rtrigo_def.sin a - Rtrigo_def.sin b) * (Rtrigo_def.sin a - Rtrigo_def.sin b)
  = 2 - 2 * Rtrigo_def.cos (a - b).
Proof.
  rewrite cos_minus.
  pose proof (sin2_cos2 a) as Ha. pose proof (sin2_cos2 b) as Hb.
  unfold Rsqr in *. nra.
Qed.

Lemma real_vertex_separated (center_lon center_lat radius_deg : R) (i j : Z) :
  35 / 111 <= radius_deg ->
  (0 <= j < i)%Z -> (i < 32)%Z ->
  real_vertex center_lon center_lat radius_deg i
    <> real_vertex center_lon center_lat radius_deg j.
Proof.
  intros Hr Hj Hi Heq. unfold real_vertex in Heq.
  injection Heq as Hx Hy.
  apply real_round_eq_close in Hx, Hy.
  replace (IZR 9 * powerRZ 10 (-1)) with (9 / 10) in Hy by (simpl; lra).
  pose proof (chord (angle i) (angle j)) as Hchord.
  pose proof (cos_step_bound (i - j) ltac:(lia)) as Hstep.
  rewrite <- angle_diff in Hstep.
  set (ci := Rtrigo_def.cos (angle i)) in *. set (cj := Rtrigo_def.cos (angle j)) in *.
  set (si := Rtrigo_def.sin (angle i)) in *. set (sj := Rtrigo_def.sin (angle j)) in *.
  set (cd := Rtrigo_def.cos (angle i - angle j)) in *.
  assert (HA : - (1 / 100000) <= ci - cj <= 1 / 100000) by (split; nra).
  assert (HB : - (1 / 100000) <= si - sj <= 1 / 100000) by (split; nra).
  nra.
Qed.

Lemma real_vertex_injective (center_lon center_lat radius_deg : R) (i j : Z) :
  35 / 111 <= radius_deg ->
  (0 <= i < 32)%Z -> (0 <= j < 32)%Z ->
  real_vertex center_lon center_lat radius_deg i
    = real_vertex center_lon center_lat radius_deg j ->
  i = j.
Proof.
  intros Hr Hi Hj Heq.
  destruct (Z.lt_trichotomy i j) as [Hlt|[Heq'|Hgt]]; [|exact Heq'|]; exfalso.
  - by apply (real_vertex_separated center_lon center_lat radius_deg j i Hr); [lia|lia|].
  - by apply (real_vertex_separated center_lon center_lat radius_deg i j Hr); [lia|lia|].
Qed.

Lemma kampala_radius_deg :
  exists radius_deg,
    km_to_degrees R real_ops kampala_radius_km kampala_lat = Return radius_deg /\
    35 / 111 <= radius_deg.
Proof.
  unfold km_to_degrees, truediv, kampala_radius_km, kampala_lat.
  cbn [is_zero real_ops cos radians mul of_int decimal div].
  pose proof PI_RGT_0 as Hpi. pose proof PI_4 as Hpi4.
  replace (IZR 3476 * powerRZ 10 (-4)) with (3476 / 10000) by (simpl; lra).
  set (lat_factor := Rtrigo_def.cos (3476 / 10000 * (PI / 180))).
  assert (Hpos : 0 < lat_factor) by (apply cos_gt_0; lra).
  assert (Hle : lat_factor <= 1) by apply COS_bound.
  destruct (Req_dec_T (IZR 111 * lat_factor) 0) as [H0|_]; [nra|].
  eexists. split; [reflexivity|].
  apply Rmult_le_reg_r with (111 * lat_factor); [nra|].
  field_simplify; [nra|lra].
Qed.

Lemma vertices_real (center_lon center_lat radius_deg : R) (range : list Z) :
  vertices R real_ops center_lon center_lat radius_deg 32 range =
    Return (real_vertex center_lon center_lat radius_deg <$> range).
Proof.
  induction range as [|i rest IH]; [reflexivity|].
  cbn [vertices]. rewrite vertex_real, IH. reflexivity.
Qed.

(** C9.  Whatever the arithmetic, a polygon [create_circle_polygon] returns
    for 32 points is one ring of 33 pairs whose last pair is its first, and
    pair [i] is the rounded point at angle [2 pi i / 32] with the latitude
    offset multiplied by 0.9.  For Kampala (center (32.5825, 0.3476), radius
    35 km), on the reals, the call returns, and the 32 pairs before the
    closing one are pairwise distinct. *)
Theorem kampala_polygon_is_closed_ring :
  (forall (F : Type) (ops : FloatOps F) (center_lon center_lat radius_km : F)
          (polygon : list (list (F * F))),
      create_circle_polygon F ops center_lon center_lat radius_km 32 = Return polygon ->
      exists radius_deg coords,
        km_to_degrees F ops radius_km center_lat = Return radius_deg /\
        polygon = [coords] /\
        length coords = 33%nat /\
        coords !! 0%nat = coords !! 32%nat /\
        forall i : Z,
          (0 <= i < 32)%Z ->
          exists angle_i,
            truediv F ops (mul ops (mul ops (of_int ops 2) (pi ops)) (of_int ops i))
                    (of_int ops 32) = Return angle_i /\
            coords !! Z.to_nat i =
              Some (round_to ops
                      (add ops center_lon (mul ops radius_deg (cos ops angle_i))) 6,
                    round_to ops
                      (add ops center_lat
                         (mul ops (mul ops radius_deg (sin ops angle_i))
                            (decimal ops 9 (-1)))) 6)) /\
  exists radius_deg coords,
    create_circle_polygon R real_ops kampala_lon kampala_lat kampala_radius_km 32
      = Return [coords] /\
    length coords = 33%nat /\
    coords !! 0%nat = coords !! 32%nat /\
    NoDup (take 32 coords) /\
    forall i : Z,
      (0 <= i < 32)%Z ->
      coords !! Z.to_nat i =
        Some (real_round (kampala_lon + radius_deg * Rtrigo_def.cos (angle i)) 6,
              real_round (kampala_lat
                          + radius_deg * Rtrigo_def.sin (angle i) * (9 / 10)) 6).
Proof.
  split.
  - intros F ops center_lon center_lat radius_km polygon Hrun.
    destruct (create_circle_polygon_shape F ops _ _ _ _ _ Hrun)
      as (radius_deg & coords & Hkm & -> & Hlen & Hclosed & Hnth).
    exists radius_deg, coords. repeat split; try done.
    intros i Hi. destruct (Hnth i Hi) as (v & Hv & Hvert).
    unfold vertex in Hvert.
    destruct (truediv F ops _ _) as [angle_i|e]; [|discriminate].
    exists angle_i. split; [reflexivity|].
    cbn [bindE] in Hvert. injection Hvert as <-. exact Hv.
  - destruct kampala_radius_deg as (radius_deg & Hkm & Hr).
    exists radius_deg,
      ((real_vertex kampala_lon kampala_lat radius_deg <$> seqZ 0 32)
         ++ [real_vertex kampala_lon kampala_lat radius_deg 0]).
    assert (Hlen : length (real_vertex kampala_lon kampala_lat radius_deg <$> seqZ 0 32)
                   = 32%nat).
    { by rewrite length_fmap, length_seqZ. }
    split; [|split; [|split; [|split]]].
    + unfold create_circle_polygon. rewrite Hkm. cbn [bindE].
      rewrite vertices_real. cbn [bindE].
      rewrite (seqZ_cons 0 32) by lia. reflexivity.
    + rewrite length_app, Hlen. reflexivity.
    + rewrite (lookup_app_r _ _ 32) by lia. rewrite Hlen.
      rewrite lookup_app_l by lia.
      rewrite list_lookup_fmap, lookup_seqZ_lt by lia. reflexivity.
    + rewrite take_app_length' by (by rewrite Hlen).
      apply NoDup_fmap_2_strong; [|apply NoDup_seqZ].
      intros i j Hi Hj Heq. apply elem_of_seqZ in Hi, Hj.
      eapply real_vertex_injective; eauto; lia.
    + intros i Hi. rewrite lookup_app_l by lia.
      rewrite list_lookup_fmap, lookup_seqZ_lt by lia.
      rewrite Z2Nat.id by lia. unfold real_vertex.
      replace (IZR 9 * powerRZ 10 (-1)) with (9 / 10) by (simpl; lra).
      reflexivity.
Qed.

End RealModel.



(** ** RegionGeometryGenerator: the feature collections *)

(** A number written in the tables of the script: an [int] or a decimal
    literal [m * 10^e]. *)
Inductive Num : Type :=
  | IntLit (z : Z)
  | DecLit (m e : Z).

(** An entry of [SUBREGIONS]. *)
Record SubInfo : Type := mkSubInfo {
  sub_name : string;
  offset : Num * Num;
  radius_factor : Num
}.

(** [SUBREGIONS], in the order of the dict. *)
Definition SUBREGIONS : list (string * SubInfo) :=
  [ ("C", mkSubInfo "Central" (IntLit 0, IntLit 0) (DecLit 25 (-2)));
    ("N", mkSubInfo "North" (IntLit 0, DecLit 65 (-2)) (DecLit 28 (-2)));
    ("S", mkSubInfo "South" (IntLit 0, DecLit (-65) (-2)) (DecLit 28 (-2)));
    ("E", mkSubInfo "East" (DecLit 65 (-2), IntLit 0) (DecLit 28 (-2)));
    ("W", mkSubInfo "West" (DecLit (-65) (-2), IntLit 0) (DecLit 28 (-2)));
    ("NW", mkSubInfo "Northwest" (DecLit (-5) (-1), DecLit 5 (-1)) (DecLit 25 (-2)));
    ("NE", mkSubInfo "Northeast" (DecLit 5 (-1), DecLit 5 (-1)) (DecLit 25 (-2)));
    ("SW", mkSubInfo "Southwest" (DecLit (-5) (-1), DecLit (-5) (-1)) (DecLit 25 (-2)));
    ("SE", mkSubInfo "Southeast" (DecLit 5 (-1), DecLit (-5) (-1)) (DecLit 25 (-2))) ].

Section GeoJSON.

Variable F : Type.
Variable ops : FloatOps F.

(** [str.lower] and [str.upper] *)
Variable str_lower : string -> string.
Variable str_upper : string -> string.

Definition num (n : Num) : F :=
  match n with
  | IntLit z => of_int ops z
  | DecLit m e => decimal ops m e
  end.

(** A region of a country: [{"name": ..., "center": (lon, lat), "radius_km": ...}]. *)
Record RegionInfo : Type := mkRegionInfo {
  region_name : string;
  center : F * F;
  radius_km : Z
}.

(** A country of [COUNTRIES]; [regions] keeps the order of the dict. *)
Record Country : Type := mkCountry {
  country_name : string;
  country_center : F * F;
  bbox : list (F * F);
  regions : list (string * RegionInfo)
}.

(** [COUNTRIES]: Uganda alone. *)
Definition UG : Country :=
  mkCountry "Uganda" (decimal ops 322903 (-4), decimal ops 13733 (-4))
    [ (decimal ops 295 (-1), decimal ops (-15) (-1));
      (decimal ops 295 (-1), decimal ops 42 (-1));
      (decimal ops 350 (-1), decimal ops 42 (-1));
      (decimal ops 350 (-1), decimal ops (-15) (-1));
      (decimal ops 295 (-1), decimal ops (-15) (-1)) ]
    [ ("KAM", mkRegionInfo "Kampala" (decimal ops 325825 (-4), decimal ops 3476 (-4)) 35);
      ("JIN", mkRegionInfo "Jinja" (decimal ops 332041 (-4), decimal ops 4244 (-4)) 40);
      ("MBA", mkRegionInfo "Mbarara" (decimal ops 306545 (-4), decimal ops (-6072) (-4)) 50);
      ("GUL", mkRegionInfo "Gulu" (decimal ops 322997 (-4), decimal ops 27747 (-4)) 55);
      ("ARU", mkRegionInfo "Arua" (decimal ops 309110 (-4), decimal ops 30303 (-4)) 50);
      ("MBL", mkRegionInfo "Mbale" (decimal ops 341750 (-4), decimal ops 10821 (-4)) 45);
      ("LIR", mkRegionInfo "Lira" (decimal ops 325400 (-4), decimal ops 22347 (-4)) 50);
      ("FTP", mkRegionInfo "Fort Portal" (decimal ops 302750 (-4), decimal ops 6710 (-4)) 45);
      ("MSK", mkRegionInfo "Masaka" (decimal ops 317350 (-4), decimal ops (-3136) (-4)) 40);
      ("SOR", mkRegionInfo "Soroti" (decimal ops 336173 (-4), decimal ops 17147 (-4)) 45);
      ("HMA", mkRegionInfo "Hoima" (decimal ops 313522 (-4), decimal ops 14331 (-4)) 50);
      ("KBL", mkRegionInfo "Kabale" (decimal ops 299833 (-4), decimal ops (-12500) (-4)) 40) ].

Definition COUNTRIES : list (string * Country) := [("UG", UG)].

(** The values of the [properties] of a feature. *)
Inductive Value : Type :=
  | VNone
  | VStr (s : string)
  | VInt (z : Z)
  | VNum (x : F).

(** A feature: its [properties] and the [coordinates] of its polygon. *)
Record Feature : Type := mkFeature {
  properties : gmap string Value;
  coordinates : list (list (F * F))
}.

(** A feature collection: its [name], whether it carries the [crs] entry,
    and its [features]. *)
Record Collection : Type := mkCollection {
  collection_name : string;
  has_crs : bool;
  features : list Feature
}.

Definition region_feature (country_code : string) (code : string) (info : RegionInfo)
    : Exc Feature :=
  let '(lon, lat) := center info in
  (let* coords := create_circle_polygon F ops lon lat (of_int ops (radius_km info)) 32 in
   Return (mkFeature
             (list_to_map
                [("code", VStr code); ("name", VStr (region_name info));
                 ("level", VInt 1); ("parent_code", VStr country_code);
                 ("center_lon", VNum lon); ("center_lat", VNum lat)])
             coords))%exc.

Fixpoint region_features (country_code : string) (items : list (string * RegionInfo))
    : Exc (list Feature) :=
  match items with
  | [] => Return []
  | (code, info) :: rest =>
      (let* feature := region_feature country_code code info in
       let* others := region_features country_code rest in
       Return (feature :: others))%exc
  end.

Definition create_region_geojson (country_code : string) (country_config : Country)
    : Exc Collection :=
  (let* features := region_features country_code (regions country_config) in
   Return (mkCollection (str_lower (country_name country_config) +:+ "_regions")
             true features))%exc.

(** The center of a subregion: [sub_lon] and [sub_lat]. *)
Definition sub_center (region_info : RegionInfo) (sub_info : SubInfo) : Exc (F * F) :=
  let '(region_lon, region_lat) := center region_info in
  let '(offset_x, offset_y) := offset sub_info in
  (let* offset_deg :=
     km_to_degrees F ops (mul ops (of_int ops (radius_km region_info)) (decimal ops 5 (-1)))
       region_lat in
   Return (add ops region_lon (mul ops (num offset_x) offset_deg),
           add ops region_lat
             (mul ops (mul ops (num offset_y) offset_deg) (decimal ops 9 (-1)))))%exc.

Definition subregion_feature (region_code : string) (region_info : RegionInfo)
    (sub_code : string) (sub_info : SubInfo) : Exc Feature :=
  (let* sub := sub_center region_info sub_info in
   let sub_radius := mul ops (of_int ops (radius_km region_info))
                       (num (radius_factor sub_info)) in
   let* coords := create_circle_polygon F ops (fst sub) (snd sub) sub_radius 32 in
   Return (mkFeature
             (list_to_map
                [("code", VStr (region_code +:+ "-" +:+ sub_code));
                 ("subregion_code", VStr sub_code);
                 ("name", VStr (sub_name sub_info +:+ " " +:+ region_name region_info));
                 ("level", VInt 2); ("parent_code", VStr region_code);
                 ("center_lon", VNum (round_to ops (fst sub) 6));
                 ("center_lat", VNum (round_to ops (snd sub) 6))])
             coords))%exc.

Fixpoint subregion_features (region_code : string) (region_info : RegionInfo)
    (subs : list (string * SubInfo)) : Exc (list Feature) :=
  match subs with
  | [] => Return []
  | (sub_code, sub_info) :: rest =>
      (let* feature := subregion_feature region_code region_info sub_code sub_info in
       let* others := subregion_features region_code region_info rest in
       Return (feature :: others))%exc
  end.

Fixpoint all_subregion_features (items : list (string * RegionInfo)) : Exc (list Feature) :=
  match items with
  | [] => Return []
  | (region_code, region_info) :: rest =>
      (let* these := subregion_features region_code region_info SUBREGIONS in
       let* others := all_subregion_features rest in
       Return (these ++ others))%exc
  end.

Definition create_subregion_geojson (country_code : string) (country_config : Country)
    : Exc Collection :=
  (let* features := all_subregion_features (regions country_config) in
   Return (mkCollection (str_lower (country_name country_config) +:+ "_subregions")
             true features))%exc.

Definition create_country_geojson (country_code : string) (country_config : Country)
    : Collection :=
  mkCollection (str_lower (country_name country_config) +:+ "_country") false
    [mkFeature
       (list_to_map
          [("code", VStr country_code); ("name", VStr (country_name country_config));
           ("level", VInt 0); ("parent_code", VNone)])
       [bbox country_config]].

(** [COUNTRIES[code]], the dict being the list of its items. *)
Fixpoint dict_get (countries : list (string * Country)) (code : string) : option Country :=
  match countries with
  | [] => None
  | (k, config) :: rest => if String.eqb k code then Some config else dict_get rest code
  end.

(** The loop of [main] that looks a country up by its name: the first match. *)
Fixpoint find_by_name (countries : list (string * Country)) (country_input : string)
    : option (string * Country) :=
  match countries with
  | [] => None
  | (code, config) :: rest =>
      if String.eqb (str_upper (country_name config)) country_input then Some (code, config)
      else find_by_name rest country_input
  end.

(** [countries_to_generate] in [main], from [args.country] ([None] when the
    argument is omitted); [None] where [main] prints the error and returns. *)
Definition countries_to_generate (countries : list (string * Country))
    (arg : option string) : option (list (string * Country)) :=
  match arg with
  | None | Some EmptyString => Some countries
  | Some country =>
      let country_input := str_upper country in
      match dict_get countries country_input with
      | Some config => Some [(country_input, config)]
      | None =>
          match find_by_name countries country_input with
          | Some found => Some [found]
          | None => None
          end
      end
  end.

(** A closed ring of 33 pairs. *)
Definition closed_ring (polygon : list (list (F * F))) : Prop :=
  exists coords,
    polygon = [coords] /\ length coords = 33%nat /\ coords !! 0%nat = coords !! 32%nat.

(** The code, the level and the parent a feature carries. *)
Definition labelled (feature : Feature) (code : string) (level : Z) (parent : string) : Prop :=
  properties feature !! "code" = Some (VStr code) /\
  properties feature !! "level" = Some (VInt level) /\
  properties feature !! "parent_code" = Some (VStr parent).

(** *** The features, whatever the arithmetic *)

Lemma create_circle_polygon_closed (center_lon center_lat radius_km : F)
    (polygon : list (list (F * F))) :
  create_circle_polygon F ops center_lon center_lat radius_km 32 = Return polygon ->
  closed_ring polygon.
Proof.
  intros Hrun.
  destruct (create_circle_polygon_shape F ops _ _ _ _ _ Hrun)
    as (radius_deg & coords & _ & -> & Hlen & Hclosed & _).
  exists coords. repeat split; assumption.
Qed.

Lemma region_feature_spec (country_code code : string) (info : RegionInfo)
    (feature : Feature) :
  region_feature country_code code info = Return feature ->
  labelled feature code 1 country_code /\ closed_ring (coordinates feature) /\
  properties feature !! "name" = Some (VStr (region_name info)) /\
  properties feature !! "center_lon" = Some (VNum (fst (center info))) /\
  properties feature !! "center_lat" = Some (VNum (snd (center info))).
Proof.
  unfold region_feature. destruct (center info) as [lon lat].
  destruct (create_circle_polygon F ops lon lat _ 32) as [coords|e] eqn:Hpoly;
    [|discriminate].
  cbn [bindE]. intros Hf. injection Hf as <-.
  split; [by repeat split|]. split; [|by repeat split].
  by apply create_circle_polygon_closed in Hpoly.
Qed.

Lemma region_features_spec (country_code : string) (items : list (string * RegionInfo))
    (fs : list Feature) :
  region_features country_code items = Return fs ->
  Forall2 (fun item feature =>
             region_feature country_code (fst item) (snd item) = Return feature) items fs.
Proof.
  revert fs. induction items as [|[code info] rest IH]; intros fs Hrun; simpl in Hrun.
  - injection Hrun as <-. constructor.
  - destruct (region_feature country_code code info) as [f|e] eqn:Hf; [|discriminate].
    cbn [bindE] in Hrun.
    destruct (region_features country_code rest) as [others|e]; [|discriminate].
    cbn [bindE] in Hrun. injection Hrun as <-. constructor; [exact Hf|by apply IH].
Qed.

Lemma subregion_feature_spec (region_code : string) (region_info : RegionInfo)
    (sub_code : string) (sub_info : SubInfo) (feature : Feature) :
  subregion_feature region_code region_info sub_code sub_info = Return feature ->
  labelled feature (region_code +:+ "-" +:+ sub_code) 2 region_code /\
  closed_ring (coordinates feature) /\
  properties feature !! "subregion_code" = Some (VStr sub_code) /\
  properties feature !! "name"
    = Some (VStr (sub_name sub_info +:+ " " +:+ region_name region_info)).
Proof.
  unfold subregion_feature.
  destruct (sub_center region_info sub_info) as [sub|e]; [|discriminate].
  cbn [bindE].
  destruct (create_circle_polygon F ops (fst sub) (snd sub) _ 32) as [coords|e] eqn:Hpoly;
    [|discriminate].
  cbn [bindE]. intros Hf. injection Hf as <-.
  split; [by repeat split|]. split; [|by repeat split].
  by apply create_circle_polygon_closed in Hpoly.
Qed.

Lemma subregion_features_spec (region_code : string) (region_info : RegionInfo)
    (subs : list (string * SubInfo)) (fs : list Feature) :
  subregion_features region_code region_info subs = Return fs ->
  Forall2 (fun sub feature =>
             subregion_feature region_code region_info (fst sub) (snd sub) = Return feature)
    subs fs.
Proof.
  revert fs. induction subs as [|[sub_code sub_info] rest IH]; intros fs Hrun;
    simpl in Hrun.
  - injection Hrun as <-. constructor.
  - destruct (subregion_feature region_code region_info sub_code sub_info) as [f|e] eqn:Hf;
      [|discriminate].
    cbn [bindE] in Hrun.
    destruct (subregion_features region_code region_info rest) as [others|e];
      [|discriminate].
    cbn [bindE] in Hrun. injection Hrun as <-. constructor; [exact Hf|by apply IH].
Qed.

Lemma all_subregion_features_spec (items : list (string * RegionInfo)) (fs : list Feature) :
  all_subregion_features items = Return fs ->
  length fs = (9 * length items)%nat /\
  forall (i j : nat) (region_code : string) (region_info : RegionInfo)
         (sub_code : string) (sub_info : SubInfo),
    items !! i = Some (region_code, region_info) ->
    SUBREGIONS !! j = Some (sub_code, sub_info) ->
    exists feature,
      fs !! (9 * i + j)%nat = Some feature /\
      subregion_feature region_code region_info sub_code sub_info = Return feature.
Proof.
  revert fs. induction items as [|[code info] rest IH]; intros fs Hrun.
  - simpl in Hrun. injection Hrun as <-. split; [reflexivity|]. intros i j ? ? ? ? Hi.
    by destruct i.
  - cbn [all_subregion_features] in Hrun.
    destruct (subregion_features code info SUBREGIONS) as [these|e] eqn:Hthese;
      [|discriminate].
    cbn [bindE] in Hrun.
    destruct (all_subregion_features rest) as [others|e]; [|discriminate].
    cbn [bindE] in Hrun. injection Hrun as <-.
    apply subregion_features_spec in Hthese.
    pose proof (Forall2_length _ _ _ Hthese) as Hlen. simpl in Hlen.
    destruct (IH others eq_refl) as [Hlen' Hnth].
    split; [rewrite length_app; simpl; lia|].
    intros i j region_code region_info sub_code sub_info Hi Hj.
    assert (Hjlt : (j < 9)%nat) by (apply lookup_lt_Some in Hj; simpl in Hj; lia).
    destruct i as [|i].
    + injection Hi as <- <-.
      destruct (Forall2_lookup_l _ _ _ j _ Hthese Hj) as (f & Hf & Hrun).
      exists f. split; [|exact Hrun].
      rewrite lookup_app_l by lia. by rewrite Nat.mul_0_r.
    + destruct (Hnth i j _ _ _ _ Hi Hj) as (f & Hf & Hrun).
      exists f. split; [|exact Hrun].
      rewrite lookup_app_r by lia. rewrite <- Hf. f_equal. lia.
Qed.

(** X19.  When [create_region_geojson] returns, the collection has one feature per
    region, in the order of the configuration; the feature of a region
    carries its code, level 1, the country code as parent and the configured
    center, and its polygon is a closed ring of 33 pairs. *)
Theorem region_collection_follows_config (country_code : string)
    (country_config : Country) (collection : Collection) :
  create_region_geojson country_code country_config = Return collection ->
  collection_name collection = str_lower (country_name country_config) +:+ "_regions" /\
  length (features collection) = length (regions country_config) /\
  forall (i : nat) (code : string) (info : RegionInfo),
    regions country_config !! i = Some (code, info) ->
    exists feature,
      features collection !! i = Some feature /\
      labelled feature code 1 country_code /\
      closed_ring (coordinates feature) /\
      properties feature !! "center_lon" = Some (VNum (fst (center info))) /\
      properties feature !! "center_lat" = Some (VNum (snd (center info))).
Proof.
  unfold create_region_geojson. intros Hrun.
  destruct (region_features country_code (regions country_config)) as [fs|e] eqn:Hfs;
    [|discriminate].
  cbn [bindE] in Hrun. injection Hrun as <-. cbn [collection_name features].
  apply region_features_spec in Hfs.
  split; [reflexivity|]. split; [symmetry; by eapply Forall2_length|].
  intros i code info Hi.
  destruct (Forall2_lookup_l _ _ _ i _ Hfs Hi) as (f & Hf & Hone).
  exists f. split; [exact Hf|].
  apply region_feature_spec in Hone as (? & ? & _ & ? & ?).
  split; [assumption|]. split; [assumption|]. split; assumption.
Qed.

(** X20.  When [create_subregion_geojson] returns, the collection has nine
    features per region, region after region in the order of the
    configuration and, within a region, in the order of [SUBREGIONS]; the
    feature of subregion [sub] of region [REG] has the code [REG-sub], level
    2 and [REG] as parent, and its polygon is a closed ring of 33 pairs. *)
Theorem subregion_collection_follows_config (country_code : string)
    (country_config : Country) (collection : Collection) :
  create_subregion_geojson country_code country_config = Return collection ->
  length (features collection) = (9 * length (regions country_config))%nat /\
  forall (i j : nat) (region_code : string) (region_info : RegionInfo)
         (sub_code : string) (sub_info : SubInfo),
    regions country_config !! i = Some (region_code, region_info) ->
    SUBREGIONS !! j = Some (sub_code, sub_info) ->
    exists feature,
      features collection !! (9 * i + j)%nat = Some feature /\
      labelled feature (region_code +:+ "-" +:+ sub_code) 2 region_code /\
      properties feature !! "subregion_code" = Some (VStr sub_code) /\
      closed_ring (coordinates feature).
Proof.
  unfold create_subregion_geojson. intros Hrun.
  destruct (all_subregion_features (regions country_config)) as [fs|e] eqn:Hfs;
    [|discriminate].
  cbn [bindE] in Hrun. injection Hrun as <-. cbn [features].
  destruct (all_subregion_features_spec _ _ Hfs) as [Hlen Hnth].
  split; [exact Hlen|].
  intros i j region_code region_info sub_code sub_info Hi Hj.
  destruct (Hnth i j _ _ _ _ Hi Hj) as (f & Hf & Hone).
  exists f. split; [exact Hf|].
  apply subregion_feature_spec in Hone as (? & ? & ? & _).
  split; [assumption|]. split; assumption.
Qed.

(** *** The selection of the countries *)

Lemma dict_get_elem (countries : list (string * Country)) (code : string)
    (config : Country) :
  dict_get countries code = Some config -> (code, config) ∈ countries.
Proof.
  induction countries as [|[k cfg] rest IH]; simpl; [discriminate|].
  destruct (String.eqb k code) eqn:Hk.
  - apply String.eqb_eq in Hk as ->. intros [= ->]. by left.
  - intros Hrest. right. by apply IH.
Qed.

Lemma find_by_name_elem (countries : list (string * Country)) (country_input : string)
    (found : string * Country) :
  find_by_name countries country_input = Some found ->
  found ∈ countries /\ str_upper (country_name (snd found)) = country_input.
Proof.
  induction countries as [|[code cfg] rest IH]; simpl; [discriminate|].
  destruct (String.eqb (str_upper (country_name cfg)) country_input) eqn:Hname.
  - apply String.eqb_eq in Hname. intros [= <-]. split; [by left|exact Hname].
  - intros Hrest. destruct (IH Hrest) as [Hin Heq]. split; [by right|exact Heq].
Qed.

(** X24.  Whatever the argument, the script generates only countries of
    [COUNTRIES].  With a non-empty argument it generates one country: the
    one whose code is the argument in upper case or, when there is no such
    code, the first whose name in upper case is; with no argument, or an
    empty one, it generates all of them. *)
Theorem selection_is_configured (countries : list (string * Country))
    (arg : option string) (selected : list (string * Country)) :
  countries_to_generate countries arg = Some selected ->
  (forall item, item ∈ selected -> item ∈ countries) /\
  match arg with
  | None | Some EmptyString => selected = countries
  | Some country =>
      exists code config,
        selected = [(code, config)] /\
        (code = str_upper country \/
         (dict_get countries (str_upper country) = None /\
          str_upper (country_name config) = str_upper country))
  end.
Proof.
  unfold countries_to_generate.
  destruct arg as [[|ch country]|]; try (intros [= <-]; by split).
  set (country_input := str_upper (String ch country)).
  destruct (dict_get countries country_input) as [config|] eqn:Hcode.
  - intros [= <-]. apply dict_get_elem in Hcode. split.
    + intros item Hitem. apply list_elem_of_singleton in Hitem. by subst.
    + exists country_input, config. split; [reflexivity|by left].
  - destruct (find_by_name countries country_input) as [[code config]|] eqn:Hname;
      [|discriminate].
    intros [= <-]. apply find_by_name_elem in Hname as [Hin Hname]. split.
    + intros item Hitem. apply list_elem_of_singleton in Hitem. by subst.
    + exists code, config. split; [reflexivity|]. right. by split.
Qed.

End GeoJSON.

(** *** The feature collections in exact arithmetic *)

Section RealGeoJSON.

#[local] Open Scope R_scope.

Variable str_lower : string -> string.

(** [offset_deg] of a region on the reals. *)
Definition real_offset_deg (region_info : RegionInfo R) : R :=
  IZR (radius_km R region_info) * (5 / 10)
  / (111 * Rtrigo_def.cos (snd (center R region_info) * (PI / 180))).

Lemma cos_latitude_pos (lat : R) :
  -90 < lat < 90 -> 0 < Rtrigo_def.cos (lat * (PI / 180)).
Proof. intros H. pose proof PI_RGT_0. apply cos_gt_0; nra. Qed.

Lemma cos_latitude_half (lat : R) :
  -60 <= lat <= 60 -> 1 / 2 <= Rtrigo_def.cos (lat * (PI / 180)).
Proof.
  intros H. pose proof PI_RGT_0 as Hpi. rewrite <- cos_PI3.
  destruct (Rle_dec 0 lat) as [Hpos|Hneg].
  - apply cos_decr_1; nra.
  - rewrite <- (cos_neg (lat * (PI / 180))). apply cos_decr_1; nra.
Qed.

Lemma km_to_degrees_real (km lat : R) :
  -90 < lat < 90 ->
  km_to_degrees R real_ops km lat
    = Return (km / (111 * Rtrigo_def.cos (lat * (PI / 180)))).
Proof.
  intros H. unfold km_to_degrees, truediv.
  cbn [is_zero real_ops cos radians mul of_int div].
  pose proof (cos_latitude_pos lat H) as Hcos.
  destruct (Req_dec_T _ 0) as [Hzero|_]; [nra|reflexivity].
Qed.

Lemma create_circle_polygon_real (center_lon center_lat radius : R) :
  -90 < center_lat < 90 ->
  exists coords,
    create_circle_polygon R real_ops center_lon center_lat radius 32 = Return [coords].
Proof.
  intros H. unfold create_circle_polygon.
  rewrite km_to_degrees_real by exact H. cbn [bindE].
  rewrite vertices_real. cbn [bindE].
  rewrite (seqZ_cons 0 32) by lia. eexists. reflexivity.
Qed.

Lemma region_features_real (country_code : string)
    (items : list (string * RegionInfo R)) :
  Forall (fun item => -90 < snd (center R (snd item)) < 90) items ->
  exists fs, region_features R real_ops country_code items = Return fs.
Proof.
  induction 1 as [|[code info] rest Hlat _ [fs IH]]; [by eexists|].
  cbn [region_features]. unfold region_feature.
  simpl in Hlat. destruct (center R info) as [lon lat]. simpl in Hlat.
  destruct (create_circle_polygon_real lon lat (of_int real_ops (radius_km R info)) Hlat)
    as [coords ->].
  cbn [bindE]. rewrite IH. cbn [bindE]. by eexists.
Qed.

Lemma sub_center_real (region_info : RegionInfo R) (sub_info : SubInfo) :
  -90 < snd (center R region_info) < 90 ->
  sub_center R real_ops region_info sub_info
    = Return (fst (center R region_info)
              + num R real_ops (fst (offset sub_info)) * real_offset_deg region_info,
              snd (center R region_info)
              + num R real_ops (snd (offset sub_info)) * real_offset_deg region_info
                * (9 / 10)).
Proof.
  intros H. unfold sub_center, real_offset_deg.
  destruct (center R region_info) as [lon lat]. simpl in H.
  destruct (offset sub_info) as [offset_x offset_y].
  rewrite km_to_degrees_real by exact H.
  cbn [bindE fst snd mul add of_int decimal real_ops].
  replace (IZR 5 * powerRZ 10 (-1)) with (5 / 10) by (simpl; lra).
  replace (IZR 9 * powerRZ 10 (-1)) with (9 / 10) by (simpl; lra).
  reflexivity.
Qed.

Lemma real_offset_deg_bound (region_info : RegionInfo R) :
  -60 <= snd (center R region_info) <= 60 ->
  (0 <= radius_km R region_info <= 1000)%Z ->
  0 <= real_offset_deg region_info <= 10.
Proof.
  intros Hlat [Hr0 Hr1]. unfold real_offset_deg.
  pose proof (cos_latitude_half _ Hlat) as Hcos.
  apply IZR_le in Hr0, Hr1.
  set (c := Rtrigo_def.cos _) in *. set (r := IZR (radius_km R region_info)) in *.
  assert (Hb : 0 < 111 * c) by lra.
  split.
  - apply Rmult_le_reg_r with (111 * c); [exact Hb|].
    unfold Rdiv. rewrite Rmult_assoc, Rinv_l by lra. lra.
  - apply Rmult_le_reg_r with (111 * c); [exact Hb|].
    unfold Rdiv. rewrite Rmult_assoc, Rinv_l by lra. lra.
Qed.

Lemma subregion_features_real (region_code : string) (region_info : RegionInfo R)
    (subs : list (string * SubInfo)) :
  -60 <= snd (center R region_info) <= 60 ->
  (0 <= radius_km R region_info <= 1000)%Z ->
  Forall (fun sub => -1 <= num R real_ops (snd (offset (snd sub))) <= 1) subs ->
  exists fs, subregion_features R real_ops region_code region_info subs = Return fs.
Proof.
  intros Hlat Hr. induction 1 as [|[sub_code sub_info] rest Hoff _ [fs IH]]; [by eexists|].
  cbn [subregion_features]. unfold subregion_feature.
  rewrite sub_center_real by lra. cbn [bindE fst snd].
  simpl in Hoff. pose proof (real_offset_deg_bound region_info Hlat Hr) as Hd.
  edestruct create_circle_polygon_real as [coords ->]; [|].
  { split; nra. }
  cbn [bindE]. rewrite IH. cbn [bindE]. by eexists.
Qed.

Lemma SUBREGIONS_offsets :
  Forall (fun sub => -1 <= num R real_ops (snd (offset (snd sub))) <= 1) SUBREGIONS.
Proof. unfold SUBREGIONS. repeat constructor; simpl; lra. Qed.

Lemma all_subregion_features_real (items : list (string * RegionInfo R)) :
  Forall (fun item => -60 <= snd (center R (snd item)) <= 60 /\
                      (0 <= radius_km R (snd item) <= 1000)%Z) items ->
  exists fs, all_subregion_features R real_ops items = Return fs.
Proof.
  induction 1 as [|[code info] rest [Hlat Hr] _ [fs IH]]; [by eexists|].
  cbn [all_subregion_features]. simpl in Hlat, Hr.
  destruct (subregion_features_real code info SUBREGIONS Hlat Hr SUBREGIONS_offsets)
    as [these ->].
  cbn [bindE]. rewrite IH. cbn [bindE]. by eexists.
Qed.

Lemma create_region_geojson_real (country_code : string) (country_config : Country R) :
  Forall (fun item => -90 < snd (center R (snd item)) < 90) (regions R country_config) ->
  exists collection,
    create_region_geojson R real_ops str_lower country_code country_config
      = Return collection.
Proof.
  intros Hlat. unfold create_region_geojson.
  destruct (region_features_real country_code _ Hlat) as [fs ->]. by eexists.
Qed.

Lemma create_subregion_geojson_real (country_code : string) (country_config : Country R) :
  Forall (fun item => -60 <= snd (center R (snd item)) <= 60 /\
                      (0 <= radius_km R (snd item) <= 1000)%Z)
    (regions R country_config) ->
  exists collection,
    create_subregion_geojson R real_ops str_lower country_code country_config
      = Return collection.
Proof.
  intros Hok. unfold create_subregion_geojson.
  destruct (all_subregion_features_real _ Hok) as [fs ->]. by eexists.
Qed.

Lemma UG_moderate :
  Forall (fun item => -60 <= snd (center R (snd item)) <= 60 /\
                      (0 <= radius_km R (snd item) <= 1000)%Z)
    (regions R (UG R real_ops)).
Proof.
  unfold UG. cbn [regions].
  repeat constructor; cbn [snd center radius_km decimal real_ops]; simpl powerRZ;
    try lra; try lia.
Qed.

Lemma UG_between_poles :
  Forall (fun item => -90 < snd (center R (snd item)) < 90) (regions R (UG R real_ops)).
Proof.
  eapply Forall_impl; [exact UG_moderate|]. intros item [H _]. lra.
Qed.

End RealGeoJSON.

(** *** The theorems at concrete inputs: Uganda, on the reals *)

Lemma region_collection_follows_config_witness :
  exists collection,
    create_region_geojson R real_ops Importer.lower "UG" (UG R real_ops)
      = Return collection /\
    collection_name R collection = "uganda_regions" /\
    length (features R collection) = 12%nat.
Proof.
  destruct (create_region_geojson_real Importer.lower "UG" (UG R real_ops)
              UG_between_poles) as [collection Hrun].
  exists collection. split; [exact Hrun|].
  destruct (region_collection_follows_config R real_ops Importer.lower "UG"
              (UG R real_ops) collection Hrun) as (Hname & Hlen & _).
  split; [exact Hname|exact Hlen].
Defined.

Lemma subregion_collection_follows_config_witness :
  exists collection,
    create_subregion_geojson R real_ops Importer.lower "UG" (UG R real_ops)
      = Return collection /\
    length (features R collection) = 108%nat.
Proof.
  destruct (create_subregion_geojson_real Importer.lower "UG" (UG R real_ops)
              UG_moderate) as [collection Hrun].
  exists collection. split; [exact Hrun|].
  destruct (subregion_collection_follows_config R real_ops Importer.lower "UG"
              (UG R real_ops) collection Hrun) as (Hlen & _).
  exact Hlen.
Defined.

Lemma selection_is_configured_witness :
  (forall item, item ∈ [("UG", UG R real_ops)] -> item ∈ COUNTRIES R real_ops) /\
  exists code config,
    [("UG", UG R real_ops)] = [(code, config)] /\
    (code = Importer.upper "uganda" \/
     (dict_get R (COUNTRIES R real_ops) (Importer.upper "uganda") = None /\
      Importer.upper (country_name R config) = Importer.upper "uganda")).
Proof.
  apply (selection_is_configured R Importer.upper (COUNTRIES R real_ops) (Some "uganda")
           [("UG", UG R real_ops)]).
  reflexivity.
Defined.

End Regions.
